(** * twscrape.imap: retrieving a login confirmation code over IMAP

    A shallow embedding of [twscrape/imap.py] and the properties of its
    domain resolver, mailbox session, message scanner and poll loop.

    Conventions of the embedding.
    - A Python [str] or [bytes] value is a [string]: a sequence of code
      points below 256.
    - A Python exception is a value of [exn]; a computation that may raise
      returns an [outcome].
    - The IMAP connection, the clock and the event loop are external
      collaborators.  They are an interface ([Collaborator]) of state
      transformers over an arbitrary state type; the program threads that
      state and records every call it makes in [calls].
    - The standard-library parsers the module calls
      ([email.message_from_bytes], [datetime.strptime], [bytes.decode]) are
      the fields of [Library].
    - Calls to [logger] have no effect on the results and are left out. *)

From Stdlib Require Import ZArith QArith Ascii String List Bool Lia Lqa.
From Stdlib Require Import DecimalString DecimalZ.
From stdpp Require Import base option list gmap strings.

Open Scope string_scope.
Open Scope list_scope.

(** ** Exceptions and outcomes *)

Module Py.

(** The exception classes that occur in the module or can reach it. *)
Inductive exc_class :=
| EmailLoginError
| EmailCodeTimeoutError
| IMAP4_error        (* imaplib.IMAP4.error *)
| IMAP4_abort        (* imaplib.IMAP4.abort, a subclass of error *)
| IMAP4_readonly     (* imaplib.IMAP4.readonly, a subclass of abort *)
| ValueError
| IndexError
| TypeError
| AttributeError
| UnicodeDecodeError (* a subclass of ValueError *)
| OSError
| CancelledError     (* asyncio.CancelledError: BaseException, not Exception *)
| KeyboardInterrupt. (* BaseException, not Exception *)

(** An exception object: its class, its message and, when it was raised
    with [raise ... from cause], its [__cause__]. *)
Inductive exn :=
| Exc (cls : exc_class) (message : string)
| ExcFrom (cls : exc_class) (message : string) (cause : exn).

Definition exn_class (e : exn) : exc_class :=
  match e with Exc c _ | ExcFrom c _ _ => c end.
Definition exn_message (e : exn) : string :=
  match e with Exc _ m | ExcFrom _ m _ => m end.
Definition exn_cause (e : exn) : option exn :=
  match e with Exc _ _ => None | ExcFrom _ _ c => Some c end.

(** [isinstance(e, Exception)]: what [except Exception] catches. *)
Definition is_Exception (c : exc_class) : bool :=
  match c with
  | CancelledError | KeyboardInterrupt => false
  | _ => true
  end.

(** [isinstance(e, imaplib.IMAP4.error)]. *)
Definition is_IMAP4_error (c : exc_class) : bool :=
  match c with
  | IMAP4_error | IMAP4_abort | IMAP4_readonly => true
  | _ => false
  end.

Inductive outcome (A : Type) :=
| Ret (a : A)
| Raise (e : exn).
Arguments Ret {A} a.
Arguments Raise {A} e.

End Py.
Export Py.

(** ** Python string operations used by the module *)

Module PyStr.

(** [ord(c)]. *)
Definition ord (c : ascii) : N := N_of_ascii c.

(** [str.isspace] on one character (code points below 256). *)
Definition is_space (c : ascii) : bool :=
  let n := ord c in
  ((9 <=? n) && (n <=? 13) || (28 <=? n) && (n <=? 32)
   || (n =? 133) || (n =? 160))%N.

Definition is_digit (c : ascii) : bool :=
  let n := ord c in ((48 <=? n) && (n <=? 57))%N.

(** One character of [str.lower]. *)
Definition lower_char (c : ascii) : ascii :=
  let n := ord c in
  if ((65 <=? n) && (n <=? 90)
      || (192 <=? n) && (n <=? 222) && negb (n =? 215))%N
  then ascii_of_N (n + 32) else c.

Fixpoint lower (s : string) : string :=
  match s with
  | EmptyString => EmptyString
  | String c r => String (lower_char c) (lower r)
  end.

(** A character matched by [\w] in a [str] pattern: alphanumeric or [_]. *)
Definition is_word (c : ascii) : bool :=
  let n := ord c in
  ((48 <=? n) && (n <=? 57) || (65 <=? n) && (n <=? 90)
   || (97 <=? n) && (n <=? 122) || (n =? 95)
   || (n =? 170) || (n =? 178) || (n =? 179) || (n =? 181)
   || (n =? 185) || (n =? 186) || (188 <=? n) && (n <=? 190)
   || (192 <=? n) && (n <=? 214) || (216 <=? n) && (n <=? 246)
   || (248 <=? n) && (n <=? 255))%N.

Fixpoint lstrip (s : string) : string :=
  match s with
  | EmptyString => EmptyString
  | String c r => if is_space c then lstrip r else s
  end.

(** [s.rstrip()]: [None] from the helper means "all of it was spaces". *)
Fixpoint rstrip_aux (s : string) : option string :=
  match s with
  | EmptyString => None
  | String c r =>
      match rstrip_aux r with
      | Some r' => Some (String c r')
      | None => if is_space c then None else Some (String c EmptyString)
      end
  end.

Definition rstrip (s : string) : string :=
  match rstrip_aux s with Some r => r | None => EmptyString end.

(** [s.strip()]. *)
Definition strip (s : string) : string := rstrip (lstrip s).

(** [s.split(sep)] for a separator of one character: the pieces between
    the occurrences of [sep], empty ones kept; never an empty list. *)
Fixpoint split (sep : ascii) (s : string) : list string :=
  match s with
  | EmptyString => [EmptyString]
  | String c r =>
      if Ascii.eqb c sep then EmptyString :: split sep r
      else match split sep r with
           | p :: ps => String c p :: ps
           | [] => [String c EmptyString]
           end
  end.

Fixpoint startswith (p s : string) : bool :=
  match p, s with
  | EmptyString, _ => true
  | String a p', String b s' => Ascii.eqb a b && startswith p' s'
  | String _ _, EmptyString => false
  end.

(** [p in s]: substring test. *)
Fixpoint contains (p s : string) : bool :=
  startswith p s ||
  match s with
  | EmptyString => false
  | String _ r => contains p r
  end.

(** [s[n:]]. *)
Fixpoint drop_chars (n : nat) (s : string) : string :=
  match n, s with
  | O, _ => s
  | S k, String _ r => drop_chars k r
  | S _, EmptyString => EmptyString
  end.

Fixpoint take_while (f : ascii -> bool) (s : string) : string :=
  match s with
  | EmptyString => EmptyString
  | String c r => if f c then String c (take_while f r) else EmptyString
  end.

(** [l[1]] and [l[-1]] on a list. *)
Definition index1 {A} (l : list A) : outcome A :=
  match l !! 1%nat with
  | Some x => Ret x
  | None => Raise (Exc IndexError "list index out of range")
  end.

Definition index_last {A} (l : list A) : outcome A :=
  match last l with
  | Some x => Ret x
  | None => Raise (Exc IndexError "list index out of range")
  end.

(** [str(n)] for an [int].  (CPython refuses to convert a number of more
    than 4300 digits; the module converts only message numbers and the
    timeout setting, which [int()] produced under the same limit.) *)
Definition str_of_Z (z : Z) : string := NilZero.string_of_int (Z.to_int z).
Definition str_of_nat (n : nat) : string := str_of_Z (Z.of_nat n).

(** [repr(s)] for a [str]: the text between apostrophes (between double
    quotes when it has an apostrophe and no double quote), with the quote
    character and the backslash escaped, tab, line feed and carriage
    return as [\t], [\n], [\r], and every other character that is not
    printable as [\xhh]. *)
Definition apostrophe : ascii := ascii_of_N 39.
Definition double_quote : ascii := ascii_of_N 34.
Definition backslash : ascii := ascii_of_N 92.

Fixpoint has_char (c : ascii) (s : string) : bool :=
  match s with
  | EmptyString => false
  | String a r => Ascii.eqb a c || has_char c r
  end.

Definition hex_digit (n : N) : ascii :=
  ascii_of_N (if (n <? 10)%N then 48 + n else 87 + n).

(** [str.isprintable] on one character. *)
Definition is_printable (c : ascii) : bool :=
  let n := ord c in
  ((32 <=? n) && (n <=? 126) || (161 <=? n) && negb (n =? 173))%N.

Definition repr_char (quote c : ascii) : string :=
  let n := ord c in
  if Ascii.eqb c quote || Ascii.eqb c backslash
  then String backslash (String c EmptyString)
  else if (n =? 9)%N then String backslash "t"
  else if (n =? 10)%N then String backslash "n"
  else if (n =? 13)%N then String backslash "r"
  else if is_printable c then String c EmptyString
  else String backslash
         (String "x" (String (hex_digit (n / 16))
                        (String (hex_digit (n mod 16)) EmptyString))).

Fixpoint repr_chars (quote : ascii) (s : string) : string :=
  match s with
  | EmptyString => EmptyString
  | String c r => (repr_char quote c ++ repr_chars quote r)%string
  end.

Definition repr (s : string) : string :=
  let quote :=
    if has_char apostrophe s && negb (has_char double_quote s)
    then double_quote else apostrophe in
  String quote (repr_chars quote s ++ String quote EmptyString)%string.

(** [s[:n]]. *)
Fixpoint take_chars (n : nat) (s : string) : string :=
  match n, s with
  | S k, String c r => String c (take_chars k r)
  | _, _ => EmptyString
  end.

(** The whitespace that [int()] allows around a literal: the ASCII
    whitespace and the two spaces above it; not the separators 28 to 31,
    which [str.strip] drops. *)
Definition is_int_space (c : ascii) : bool :=
  let n := ord c in
  ((9 <=? n) && (n <=? 13) || (n =? 32) || (n =? 133) || (n =? 160))%N.

Fixpoint int_lstrip (s : string) : string :=
  match s with
  | EmptyString => EmptyString
  | String c r => if is_int_space c then int_lstrip r else s
  end.

Fixpoint all_int_space (s : string) : bool :=
  match s with
  | EmptyString => true
  | String c r => is_int_space c && all_int_space r
  end.

(** The digits of an integer literal after the sign: decimal digits, with
    single underscores allowed between two digits.  The scan stops at the
    first character that is neither; it gives the value, the number of
    digits and the text left, or nothing when there is no digit or an
    underscore is misplaced.  [acc] is the value so far, [count] the
    number of digits so far, and [prev] says whether the previous
    character was a digit. *)
Fixpoint int_scan (s : string) (acc count : Z) (prev : bool)
    : option (Z * Z * string) :=
  match s with
  | EmptyString => if prev then Some (acc, count, EmptyString) else None
  | String c r =>
      if is_digit c
      then int_scan r (10 * acc + Z.of_N (ord c - 48)) (count + 1) true
      else if Ascii.eqb c "_" then
             if prev then
               match r with
               | String d _ =>
                   if is_digit d then int_scan r acc count false else None
               | EmptyString => None
               end
             else None
           else if prev then Some (acc, count, s) else None
  end.

(** [sys.get_int_max_str_digits()], at its default. *)
Definition int_max_str_digits : Z := 4300.

(** [int(s)] for a [str] (CPython 3.11): whitespace around the literal is
    dropped, one sign is allowed, a literal of more than
    [int_max_str_digits] digits is refused, and the message of an invalid
    literal shows the first 200 characters of [repr(s)]. *)
Definition int_of_str (s : string) : outcome Z :=
  let invalid :=
    Raise (Exc ValueError
             ("invalid literal for int() with base 10: "
              ++ take_chars 200 (repr s))) in
  let t := int_lstrip s in
  let '(sign, body) :=
    match t with
    | String c r =>
        if Ascii.eqb c "-" then ((-1)%Z, r)
        else if Ascii.eqb c "+" then (1%Z, r)
        else (1%Z, t)
    | EmptyString => (1%Z, t)
    end in
  match int_scan body 0 0 false with
  | None => invalid
  | Some (value, count, rest) =>
      if (int_max_str_digits <? count)%Z then
        Raise (Exc ValueError
                 ("Exceeds the limit (" ++ str_of_Z int_max_str_digits
                  ++ " digits) for integer string conversion: value has "
                  ++ str_of_Z count
                  ++ " digits; use sys.set_int_max_str_digits() to increase the limit"))
      else if all_int_space rest then Ret (sign * value)%Z
      else invalid
  end.

End PyStr.
Export PyStr.

(** ** Domain resolver *)

(** The module-level dictionary [IMAP_MAPPING] as it is when the module
    has been imported. *)
Definition IMAP_MAPPING : gmap string string :=
  <["proton.me" := "127.0.0.1:1143"]>
  (<["hotmail.com" := "imap-mail.outlook.com"]>
  (<["outlook.com" := "imap-mail.outlook.com"]>
  (<["icloud.com" := "imap.mail.me.com"]>
  (<["yahoo.com" := "imap.mail.yahoo.com"]> ∅)))).

(** [add_imap_mapping]: [IMAP_MAPPING[email_domain] = imap_domain]; the
    dictionary is passed in and the updated one returned. *)
Definition add_imap_mapping (email_domain imap_domain : string)
    (mapping : gmap string string) : gmap string string :=
  <[email_domain := imap_domain]> mapping.

(** [_get_imap_domain], reading the dictionary [mapping]. *)
Definition _get_imap_domain (email : string)
    (mapping : gmap string string) : outcome string :=
  match index1 (split "@" email) with
  | Raise e => Raise e
  | Ret email_domain =>
      match mapping !! email_domain with
      | Some imap_domain => Ret imap_domain
      | None => Ret ("imap." ++ email_domain)%string
      end
  end.


(** ** Configuration: the timeout setting *)

(** An entry of the list of sources: an environment string or the [int]
    default. *)
Inductive source :=
| EnvStr (s : string)
| DefaultInt (z : Z).

(** [int(x)] on an entry. *)
Definition int_of_source (x : source) : outcome Z :=
  match x with
  | EnvStr s => int_of_str s
  | DefaultInt z => Ret z
  end.

(** [[int(x) for x in sources if x is not None]]: every entry that is not
    [None] is converted, in order; the first failing conversion raises. *)
Fixpoint int_of_each (sources : list (option source)) : outcome (list Z) :=
  match sources with
  | [] => Ret []
  | None :: rest => int_of_each rest
  | Some x :: rest =>
      match int_of_source x with
      | Raise e => Raise e
      | Ret v =>
          match int_of_each rest with
          | Raise e => Raise e
          | Ret vs => Ret (v :: vs)
          end
      end
  end.

Definition index0 {A} (l : list A) : outcome A :=
  match l with
  | x :: _ => Ret x
  | [] => Raise (Exc IndexError "list index out of range")
  end.

(** The module constant [TWS_WAIT_EMAIL_CODE], as a function of
    [os.getenv]. *)
Definition TWS_WAIT_EMAIL_CODE (getenv : string -> option string)
    : outcome Z :=
  let sources :=
    [EnvStr <$> getenv "TWS_WAIT_EMAIL_CODE";
     EnvStr <$> getenv "LOGIN_CODE_TIMEOUT";
     Some (DefaultInt 30)] in
  match int_of_each sources with
  | Raise e => Raise e
  | Ret vs => index0 vs
  end.

(** ** Messages *)

(** An [email.message.Message]: its headers in order, the value of
    [get_content_type()], and either the bytes [get_payload(decode=True)]
    gives (not multipart) or the sub-parts (multipart). *)
#[warnings="-register-all"]
Inductive Message :=
| Leaf (headers : list (string * string)) (content_type : string)
       (payload : string)
| Multipart (headers : list (string * string)) (content_type : string)
            (parts : list Message).

Definition headers_of (m : Message) : list (string * string) :=
  match m with Leaf h _ _ | Multipart h _ _ => h end.

Definition get_content_type (m : Message) : string :=
  match m with Leaf _ c _ | Multipart _ c _ => c end.

Definition is_multipart (m : Message) : bool :=
  match m with Leaf _ _ _ => false | Multipart _ _ _ => true end.

(** [msg.get(name)]: the first header of that name, names compared without
    case; [None] when there is none. *)
Fixpoint find_header (name : string) (hs : list (string * string))
    : option string :=
  match hs with
  | [] => None
  | (k, v) :: rest =>
      if String.eqb (lower k) (lower name) then Some v
      else find_header name rest
  end.

Definition msg_get (m : Message) (name : string) : option string :=
  find_header name (headers_of m).

(** [msg.get(name, failobj)]. *)
Definition msg_get_or (m : Message) (name failobj : string) : string :=
  default failobj (msg_get m name).

(** [str(x)] of a header value or [None]. *)
Definition str_of_opt (x : option string) : string := default "None" x.

(** [msg.walk()]: the message, then the walk of every sub-part in order. *)
Fixpoint walk (m : Message) : list Message :=
  m :: match m with
       | Leaf _ _ _ => []
       | Multipart _ _ ps => flat_map walk ps
       end.

(** A [datetime]: the instant (microseconds), and whether it carries a
    time zone.  Comparing an aware with a naive one raises. *)
Record datetime := { instant : Z; tz_aware : bool }.

Definition datetime_lt (a b : datetime) : outcome bool :=
  if Bool.eqb (tz_aware a) (tz_aware b)
  then Ret (instant a <? instant b)%Z
  else Raise (Exc TypeError
                "can't compare offset-naive and offset-aware datetimes").

(** The parsers of the standard library that the module calls. *)
Record Library := {
  (* email.message_from_bytes(b) *)
  message_from_bytes : string -> Message;
  (* datetime.strptime(date_string, format) *)
  strptime : string -> string -> outcome datetime;
  (* b.decode() and b.decode("utf-8") *)
  bytes_decode : string -> outcome string
}.

(** [EmailCodeResult]. *)
Record EmailCodeResult := { code : string; username : option string }.

(** ** The handle in the body *)

Definition handle_prefix : string := "to log in to your account @".

(** [re.search(r"to log in to your account @(\w+)", body)], giving
    [group(1)] of the leftmost match: the longest run of word characters
    after the leftmost occurrence of the prefix that has one. *)
Fixpoint re_search_username (body : string) : option string :=
  let here :=
    if startswith handle_prefix body
    then match take_while is_word
                 (drop_chars (String.length handle_prefix) body) with
         | EmptyString => None
         | w => Some w
         end
    else None in
  match here with
  | Some w => Some w
  | None =>
      match body with
      | EmptyString => None
      | String _ rest => re_search_username rest
      end
  end.

(** What a piece of a loop body does: it falls through to the next
    iteration or it returns from the function. *)
Inductive flow (A : Type) :=
| Fallthrough
| Returned (a : A).
Arguments Fallthrough {A}.
Arguments Returned {A} a.

(** An element of the data of a FETCH response. *)
Inductive fetch_item :=
| ItemTuple (envelope body : string)
| ItemBytes (b : string)
| ItemNone.

Section WithLibrary.

Variable lib : Library.

(** [part.get_payload(decode=True).decode()]: on a multipart part
    [get_payload(decode=True)] is [None]. *)
Definition decoded_payload (part : Message) : outcome string :=
  match part with
  | Leaf _ _ payload => bytes_decode lib payload
  | Multipart _ _ _ =>
      Raise (Exc AttributeError
               "'NoneType' object has no attribute 'decode'")
  end.

(** The test of the [for part in msg.walk()] loop. *)
Definition plain_text_part (part : Message) : bool :=
  let ctype := get_content_type part in
  let cdispo := str_of_opt (msg_get part "Content-Disposition") in
  String.eqb ctype "text/plain" && negb (contains "attachment" cdispo).

(** The [for part in msg.walk()] loop: [body] is assigned at every part
    that passes the test; the loop has no [break]. *)
Fixpoint walk_body (parts : list Message) (body : string) : outcome string :=
  match parts with
  | [] => Ret body
  | part :: rest =>
      if plain_text_part part then
        match decoded_payload part with
        | Raise e => Raise e
        | Ret body' => walk_body rest body'
        end
      else walk_body rest body
  end.

(** [_extract_username]. *)
Definition _extract_username (msg : Message) : outcome (option string) :=
  let body :=
    if is_multipart msg then walk_body (walk msg) ""
    else decoded_payload msg in
  match body with
  | Raise e => Raise e
  | Ret body => Ret (re_search_username body)
  end.

(** ** Message scanner *)

Definition date_format : string := "%a, %d %b %Y %H:%M:%S %z".

(** [min_t is not None and msg_time < min_t]. *)
Definition older_than (min_t : option datetime) (msg_time : datetime)
    : outcome bool :=
  match min_t with
  | None => Ret false
  | Some t => datetime_lt msg_time t
  end.

Definition is_confirmation (msg_from msg_subj : string) : bool :=
  contains "info@x.com" msg_from && contains "confirmation code is" msg_subj.

(** [msg_subj.split(" ")[-1].strip()]. *)
Definition code_of_subject (msg_subj : string) : outcome string :=
  match index_last (split " " msg_subj) with
  | Raise e => Raise e
  | Ret tok => Ret (strip tok)
  end.

(** [msg_time]: the [Date] header up to the first parenthesis, stripped
    and parsed. *)
Definition message_time (msg : Message) : outcome datetime :=
  let msg_time :=
    strip (default "" (head (split "(" (msg_get_or msg "Date" "")))) in
  strptime lib msg_time date_format.

(** The body of [if isinstance(x, tuple):] for [x = (envelope, raw)]. *)
Definition scan_message (raw : string) (min_t : option datetime)
    : outcome (flow (option EmailCodeResult)) :=
  let msg := message_from_bytes lib raw in
  match message_time msg with
  | Raise e => Raise e
  | Ret msg_time =>
      let msg_from := lower (msg_get_or msg "From" "") in
      let msg_subj := lower (msg_get_or msg "Subject" "") in
      match older_than min_t msg_time with
      | Raise e => Raise e
      | Ret true => Ret (Returned None)
      | Ret false =>
          if is_confirmation msg_from msg_subj then
            match _extract_username msg with
            | Raise e => Raise e
            | Ret username =>
                match code_of_subject msg_subj with
                | Raise e => Raise e
                | Ret code => Ret (Returned (Some {| code := code;
                                                     username := username |}))
                end
            end
          else Ret Fallthrough
      end
  end.

(** [for x in rep:]. *)
Fixpoint scan_rep (rep : list fetch_item) (min_t : option datetime)
    : outcome (flow (option EmailCodeResult)) :=
  match rep with
  | [] => Ret Fallthrough
  | ItemTuple _ raw :: rest =>
      match scan_message raw min_t with
      | Ret Fallthrough => scan_rep rest min_t
      | other => other
      end
  | _ :: rest => scan_rep rest min_t
  end.

End WithLibrary.

(** ** The collaborators: IMAP connection, clock, event loop *)

(** How the connection was made. *)
Inductive session :=
| IMAP4 (host port : string)       (* imaplib.IMAP4(host, port) *)
| IMAP4_SSL (host : string).       (* imaplib.IMAP4_SSL(host) *)

Global Instance session_eq_dec : EqDecision session.
Proof. solve_decision. Defined.

(** The calls the module makes on its collaborators. *)
Inductive call :=
| CallConnect (s : session)
| CallLogin (user password : string)
| CallSelect (mailbox : string) (readonly : bool)
| CallFetch (message_set message_parts : string)
| CallClose
| CallTime
| CallSleep (delay : Z).

Global Instance call_eq_dec : EqDecision call.
Proof. solve_decision. Defined.

(** The collaborators as transformers of a state [St] of their own.  Every
    command answers with a result or raises. *)
Class Collaborator (St : Type) := {
  (* imaplib.IMAP4(host, port), imaplib.IMAP4_SSL(host) *)
  connect : session -> St -> outcome unit * St;
  (* imap.login(user, password) *)
  login : string -> string -> St -> outcome unit * St;
  (* imap.select(mailbox, readonly) = (typ, data) *)
  select : string -> bool -> St -> outcome (string * list (option string)) * St;
  (* imap.fetch(message_set, message_parts) = (typ, data) *)
  fetch : string -> string -> St -> outcome (string * list fetch_item) * St;
  (* imap.close() *)
  close : St -> outcome unit * St;
  (* time.time(), in seconds: a float in the source, an exact rational
     here *)
  time : St -> Q * St;
  (* await asyncio.sleep(delay) *)
  sleep : Z -> St -> outcome unit * St
}.

(** The state the program runs in: the collaborators' state and the calls
    made so far, oldest first. *)
Record World (St : Type) := { conn : St; calls : list call }.
Arguments conn {St} w.
Arguments calls {St} w.

(** A computation: it reads and changes the world, and returns or raises. *)
Definition M (St A : Type) : Type := World St -> outcome A * World St.

Definition ret {St A} (a : A) : M St A := fun w => (Ret a, w).
Definition raise {St A} (e : exn) : M St A := fun w => (Raise e, w).
Definition bind {St A B} (m : M St A) (k : A -> M St B) : M St B :=
  fun w =>
    match m w with
    | (Ret a, w') => k a w'
    | (Raise e, w') => (Raise e, w')
    end.
(** A pure step that may raise. *)
Definition lift {St A} (o : outcome A) : M St A := fun w => (o, w).

(** A call on a collaborator, recorded. *)
Definition invoke {St A} (c : call) (op : St -> outcome A * St) : M St A :=
  fun w =>
    let (r, s) := op (conn w) in
    (r, {| conn := s; calls := calls w ++ [c] |}).

Declare Scope prog_scope.
Delimit Scope prog_scope with prog.
Notation "'do' x <- m ; k" := (bind m (fun x => k))
  (at level 10, x pattern, m at level 100, k at level 200) : prog_scope.
Notation "m ;; k" := (bind m (fun _ => k))
  (at level 100, k at level 200, right associativity) : prog_scope.

Definition Qlt_b (a b : Q) : bool := negb (Qle_bool b a).

Section Program.

Context {St : Type} `{Collaborator St}.
Variable lib : Library.
(** The value of the module constant [TWS_WAIT_EMAIL_CODE]. *)
Variable timeout : Z.

Local Open Scope prog_scope.

Definition imap_select (mailbox : string) (readonly : bool)
    : M St (string * list (option string)) :=
  invoke (CallSelect mailbox readonly) (select mailbox readonly).
Definition imap_fetch (message_set message_parts : string)
    : M St (string * list fetch_item) :=
  invoke (CallFetch message_set message_parts)
         (fetch message_set message_parts).
Definition imap_close : M St unit := invoke CallClose close.
Definition imap_login_cmd (user password : string) : M St unit :=
  invoke (CallLogin user password) (login user password).
Definition imap_connect (s : session) : M St unit :=
  invoke (CallConnect s) (connect s).
Definition time_time : M St Q :=
  invoke CallTime (fun s => let (t, s') := time s in (Ret t, s')).
Definition asyncio_sleep (delay : Z) : M St unit :=
  invoke (CallSleep delay) (sleep delay).

(** [for i in range(count, 0, -1):] with [i] the number of the message
    fetched next. *)
Fixpoint scan_from (i : nat) (min_t : option datetime)
    : M St (option EmailCodeResult) :=
  match i with
  | O => ret None
  | S i' =>
      do (_, rep) <- imap_fetch (str_of_nat i) "(RFC822)";
      do r <- lift (scan_rep lib rep min_t);
      match r with
      | Returned res => ret res
      | Fallthrough => scan_from i' min_t
      end
  end.

(** [_wait_email_code]. *)
Definition _wait_email_code (count : Z) (min_t : option datetime)
    : M St (option EmailCodeResult) :=
  scan_from (Z.to_nat count) min_t.

(** [int(rep[0].decode("utf-8")) if len(rep) > 0 and rep[0] is not None
    else 0]. *)
Definition msg_count_of (rep : list (option string)) : outcome Z :=
  match rep with
  | Some b :: _ =>
      match bytes_decode lib b with
      | Raise e => Raise e
      | Ret s => int_of_str s
      end
  | _ => Ret 0%Z
  end.

Definition timeout_message : string :=
  "Email code timeout (" ++ str_of_Z timeout ++ " sec)".

(** One turn of [while True:]: it returns the result, raises, or falls
    through to the next turn after the sleep. *)
Definition poll_turn (min_t : option datetime) (start_time : Q)
    : M St (flow EmailCodeResult) :=
  do (_, rep) <- imap_select "INBOX" false;
  do msg_count <- lift (msg_count_of rep);
  do code_result <- _wait_email_code msg_count min_t;
  match code_result with
  | Some r => ret (Returned r)
  | None =>
      do now <- time_time;
      if Qlt_b (inject_Z timeout) (now - start_time)
      then raise (Exc EmailCodeTimeoutError timeout_message)
      else asyncio_sleep 5;; ret Fallthrough
  end.

(** [while True:], at most [fuel] turns; [None] when the turns are used
    up before the loop is left. *)
Fixpoint poll_loop (fuel : nat) (min_t : option datetime) (start_time : Q)
    (w : World St) : option (outcome EmailCodeResult * World St) :=
  match fuel with
  | O => None
  | S fuel' =>
      match poll_turn min_t start_time w with
      | (Ret (Returned r), w') => Some (Ret r, w')
      | (Ret Fallthrough, w') => poll_loop fuel' min_t start_time w'
      | (Raise e, w') => Some (Raise e, w')
      end
  end.

(** The body of [try:]. *)
Definition poll_body (fuel : nat) (min_t : option datetime) (w : World St)
    : option (outcome EmailCodeResult * World St) :=
  match time_time w with
  | (Ret start_time, w') => poll_loop fuel min_t start_time w'
  | (Raise e, w') => Some (Raise e, w')
  end.

(** The handler [except Exception as e:]. *)
Definition poll_handler (e : exn) : M St EmailCodeResult :=
  imap_select "INBOX" false;; imap_close;; raise e.

(** [imap_get_email_code(imap, email, min_t)], its loop run for at most
    [fuel] turns. *)
Definition imap_get_email_code (fuel : nat) (email : string)
    (min_t : option datetime) (w : World St)
    : option (outcome EmailCodeResult * World St) :=
  match poll_body fuel min_t w with
  | None => None
  | Some (Ret r, w') => Some (Ret r, w')
  | Some (Raise e, w') =>
      if is_Exception (exn_class e) then Some (poll_handler e w')
      else Some (Raise e, w')
  end.

(** [host, port = domain.split(":")]. *)
Definition unpack2 (l : list string) : outcome (string * string) :=
  match l with
  | [a; b] => Ret (a, b)
  | _ :: _ :: _ :: _ =>
      Raise (Exc ValueError "too many values to unpack (expected 2)")
  | _ => Raise (Exc ValueError "not enough values to unpack")
  end.

(** [imap_login(email, password)], with the dictionary [mapping]. *)
Definition imap_login (mapping : gmap string string)
    (email password : string) : M St session :=
  do domain <- lift (_get_imap_domain email mapping);
  do imap <-
    (if contains ":" domain then
       do (host, port) <- lift (unpack2 (split ":" domain));
       imap_connect (IMAP4 host port);; ret (IMAP4 host port)
     else
       imap_connect (IMAP4_SSL domain);; ret (IMAP4_SSL domain));
  fun w =>
    match (imap_login_cmd email password;;
           imap_select "INBOX" true) w with
    | (Ret _, w') => (Ret imap, w')
    | (Raise e, w') =>
        if is_IMAP4_error (exn_class e)
        then (Raise (ExcFrom EmailLoginError "Email login error" e), w')
        else (Raise e, w')
    end.

End Program.

(** ** A concrete mailbox, clock and library, for running the program *)

Module Demo.

(** A mailbox: its messages (number 1 first), the messages still to
    arrive (one is delivered during every sleep), the clock in seconds and
    the password the server accepts. *)
Record Inbox := {
  messages : list string;
  pending : list string;
  clock : Q;
  password : string
}.

Definition inbox_fetch (message_set : string) (s : Inbox)
    : outcome (string * list fetch_item) :=
  match int_of_str message_set with
  | Raise _ => Raise (Exc IMAP4_error "FETCH command error: BAD")
  | Ret n =>
      match (if (1 <=? n)%Z then messages s !! Z.to_nat (n - 1) else None) with
      | Some raw =>
          Ret ("OK", [ItemTuple (message_set ++ " (RFC822)") raw;
                      ItemBytes ")"])
      | None => Ret ("OK", [ItemNone])
      end
  end.

Definition inbox_sleep (delay : Z) (s : Inbox) : Inbox :=
  {| messages := messages s ++ take 1 (pending s);
     pending := drop 1 (pending s);
     clock := Qred (clock s + inject_Z delay);
     password := password s |}.

Global Instance inbox : Collaborator Inbox := {|
  connect _ s := (Ret tt, s);
  login _ pw s :=
    (if String.eqb pw (password s) then Ret tt
     else Raise (Exc IMAP4_error "[AUTHENTICATIONFAILED] Invalid credentials"),
     s);
  select _ _ s := (Ret ("OK", [Some (str_of_nat (length (messages s)))]), s);
  fetch message_set _ s := (inbox_fetch message_set s, s);
  close s := (Ret tt, s);
  time s := (clock s, s);
  sleep delay s := (Ret tt, inbox_sleep delay s)
|}.

Definition is_ascii (s : string) : bool :=
  forallb (fun c => (ord c <? 128)%N) (list_ascii_of_string s).

Fixpoint assoc {A} (k : string) (l : list (string * A)) : option A :=
  match l with
  | [] => None
  | (k', v) :: rest => if String.eqb k k' then Some v else assoc k rest
  end.

(** A library for the examples: the raw messages it knows are listed with
    their parsed form, the dates with their instant in seconds. *)
Definition library (parsed : list (string * Message))
    (dates : list (string * Z)) : Library := {|
  message_from_bytes raw := default (Leaf [] "text/plain" raw) (assoc raw parsed);
  strptime date_string _ :=
    match assoc date_string dates with
    | Some secs => Ret {| instant := secs * 1000000; tz_aware := true |}
    | None => Raise (Exc ValueError "time data does not match format")
    end;
  bytes_decode b :=
    if is_ascii b then Ret b
    else Raise (Exc UnicodeDecodeError "'utf-8' codec can't decode byte")
|}.

Definition dates : list (string * Z) :=
  [("Mon, 01 Jan 2024 10:00:00 +0000", 1704103200%Z);
   ("Mon, 01 Jan 2024 10:05:00 +0000", 1704103500%Z);
   ("Mon, 01 Jan 2024 10:10:00 +0000", 1704103800%Z)].

Definition at_10_00 : datetime :=
  {| instant := 1704103200 * 1000000; tz_aware := true |}.

(** A confirmation message received at 10:00. *)
Definition old_code : Message :=
  Leaf [("Date", "Mon, 01 Jan 2024 10:00:00 +0000 (UTC)");
        ("From", "X <info@x.com>");
        ("Subject", "Your X confirmation code is 111111")]
       "text/plain" "Please enter this code.".

(** An unrelated message received at 10:05. *)
Definition newsletter : Message :=
  Leaf [("Date", "Mon, 01 Jan 2024 10:05:00 +0000 (UTC)");
        ("From", "News <news@example.org>");
        ("Subject", "Weekly digest")]
       "text/plain" "Hello.".

(** An unrelated message received at 10:10. *)
Definition late_news : Message :=
  Leaf [("Date", "Mon, 01 Jan 2024 10:10:00 +0000 (UTC)");
        ("From", "News <news@example.org>");
        ("Subject", "Evening digest")]
       "text/plain" "Hello again.".

(** A confirmation message received at 10:10. *)
Definition new_code : Message :=
  Leaf [("Date", "Mon, 01 Jan 2024 10:10:00 +0000 (UTC)");
        ("From", "X <INFO@X.COM>");
        ("Subject", "Your X confirmation code is 482917")]
       "text/plain" "Please enter this code.".

(** A confirmation message whose code has capital letters. *)
Definition mixed_case_code : Message :=
  Leaf [("Date", "Mon, 01 Jan 2024 10:10:00 +0000 (UTC)");
        ("From", "X <info@x.com>");
        ("Subject", "Your X confirmation code is AbC123")]
       "text/plain" "Please enter this code.".

(** A confirmation message whose subject ends with a space. *)
Definition trailing_space_code : Message :=
  Leaf [("Date", "Mon, 01 Jan 2024 10:10:00 +0000 (UTC)");
        ("From", "X <info@x.com>");
        ("Subject", "Your X confirmation code is 482917 ")]
       "text/plain" "Please enter this code.".

(** A multipart confirmation message with two plain-text parts that are
    not attachments, and a plain-text attachment after them. *)
Definition two_bodies : Message :=
  Multipart
    [("Date", "Mon, 01 Jan 2024 10:10:00 +0000 (UTC)");
     ("From", "X <info@x.com>");
     ("Subject", "Your X confirmation code is 482917")]
    "multipart/mixed"
    [Leaf [("Content-Type", "text/plain")] "text/plain"
          "We noticed an attempt to log in to your account @firstUser that seems suspicious.";
     Leaf [("Content-Type", "text/html")] "text/html"
          "<p>to log in to your account @htmlUser</p>";
     Leaf [("Content-Type", "text/plain")] "text/plain"
          "We noticed an attempt to log in to your account @secondUser that seems suspicious.";
     Leaf [("Content-Type", "text/plain");
           ("Content-Disposition", "attachment; filename=note.txt")]
          "text/plain"
          "to log in to your account @attachedUser"].

Definition parsed : list (string * Message) :=
  [("raw:old_code", old_code);
   ("raw:newsletter", newsletter);
   ("raw:late_news", late_news);
   ("raw:new_code", new_code);
   ("raw:mixed_case_code", mixed_case_code);
   ("raw:trailing_space_code", trailing_space_code);
   ("raw:two_bodies", two_bodies)].

Definition lib : Library := library parsed dates.

Definition start (msgs later : list string) : World Inbox :=
  {| conn := {| messages := msgs; pending := later; clock := 0;
                password := "secret" |};
     calls := [] |}.

End Demo.

(** ** Vocabulary of the statements *)

(** The domain the resolver reads off an address: the second piece at
    ["@"]. *)
Definition domain_of (email : string) : option string :=
  split "@" email !! 1%nat.

(** What the resolver answers for a domain. *)
Definition endpoint_of (mapping : gmap string string) (domain : string)
    : string :=
  default ("imap." ++ domain)%string (mapping !! domain).

(** The operations of the resolver, as a process issues them one after
    the other on the shared dictionary. *)
Inductive resolver_op :=
| Register (domain endpoint : string)   (* add_imap_mapping(domain, endpoint) *)
| Resolve (email : string).             (* _get_imap_domain(email) *)

Definition run_op (mapping : gmap string string) (op : resolver_op)
    : gmap string string :=
  match op with
  | Register domain endpoint => add_imap_mapping domain endpoint mapping
  | Resolve _ => mapping
  end.

Definition run_ops (ops : list resolver_op) (mapping : gmap string string)
    : gmap string string :=
  fold_left run_op ops mapping.

(** [op] registers an endpoint for [domain]. *)
Definition registers (domain : string) (op : resolver_op) : bool :=
  match op with
  | Register d _ => String.eqb d domain
  | Resolve _ => false
  end.

(** A source of the timeout setting that is either not set or holds an
    integer literal. *)
Definition unset_or_int (value : option string) : bool :=
  match value with
  | None => true
  | Some v => match int_of_str v with Ret _ => true | Raise _ => false end
  end.

(** The timeout setting in the words of the specification: the sources
    are taken in their order of priority and the first one that is not
    empty wins; the last one is the default 30. *)
Definition first_nonempty_source (getenv : string -> option string)
    : outcome Z :=
  let nonempty (value : option string) :=
    match value with
    | Some EmptyString | None => None
    | Some v => Some v
    end in
  match nonempty (getenv "TWS_WAIT_EMAIL_CODE") with
  | Some v => int_of_str v
  | None =>
      match nonempty (getenv "LOGIN_CODE_TIMEOUT") with
      | Some v => int_of_str v
      | None => Ret 30%Z
      end
  end.

(** An environment for the examples: the two variables, as given. *)
Definition env_of (provider generic : option string) (name : string)
    : option string :=
  if String.eqb name "TWS_WAIT_EMAIL_CODE" then provider
  else if String.eqb name "LOGIN_CODE_TIMEOUT" then generic
  else None.

(** The handle as the specification words it: the pattern is matched
    against the first plain-text part that is not an attachment. *)
Definition handle_of_first_part (lib : Library) (msg : Message)
    : outcome (option string) :=
  match head (List.filter plain_text_part (walk msg)) with
  | Some part =>
      match decoded_payload lib part with
      | Raise e => Raise e
      | Ret body => Ret (re_search_username body)
      end
  | None => Ret None
  end.



(** The call that fetches message number [i]. *)
Definition fetch_call (i : nat) : call :=
  CallFetch (str_of_nat i) "(RFC822)".

(** The calls that fetch the [n] messages [hi], [hi - 1], ... in that
    order. *)
Fixpoint fetch_calls (hi n : nat) : list call :=
  match n with
  | O => []
  | S n' => fetch_call hi :: fetch_calls (hi - 1) n'
  end.

(** The message of the first tuple of a FETCH response. *)
Fixpoint first_tuple (rep : list fetch_item) : option string :=
  match rep with
  | [] => None
  | ItemTuple _ raw :: _ => Some raw
  | _ :: rest => first_tuple rest
  end.

Section Runs.

Context {St : Type} `{Collaborator St}.
Variable lib : Library.
Variable timeout : Z.

(** [scan_passes min_t i w k wk]: the scan that is about to fetch message
    [i] in world [w] fetches the messages [i], [i - 1], ..., [k + 1],
    none of them ends it, and it is about to fetch message [k] in world
    [wk]. *)
Inductive scan_passes (min_t : option datetime)
    : nat -> World St -> nat -> World St -> Prop :=
| passes_none (i : nat) (w : World St) : scan_passes min_t i w i w
| passes_next (i : nat) (w w1 : World St) (typ : string)
    (rep : list fetch_item) (k : nat) (wk : World St) :
    imap_fetch (str_of_nat (S i)) "(RFC822)" w = (Ret (typ, rep), w1) ->
    scan_rep lib rep min_t = Ret Fallthrough ->
    scan_passes min_t i w1 k wk ->
    scan_passes min_t (S i) w k wk.



End Runs.

(** The number of [close] calls in a record of calls. *)
Definition closes (cs : list call) : nat :=
  length (List.filter
            (fun c => match c with CallClose => true | _ => false end) cs).

(** The connection [imap_login] makes for a resolved endpoint: plain to
    the host and port of an endpoint [host:port], over SSL to an endpoint
    without a colon. *)
Inductive session_for (domain : string) : session -> Prop :=
| for_host_port (host port : string) :
    split ":" domain = [host; port] ->
    session_for domain (IMAP4 host port)
| for_host :
    contains ":" domain = false ->
    session_for domain (IMAP4_SSL domain).



(** No whitespace at all. *)
Fixpoint no_whitespace (s : string) : bool :=
  match s with
  | EmptyString => true
  | String c r => negb (is_space c) && no_whitespace r
  end.

Definition nonempty (s : string) : bool :=
  match s with EmptyString => false | String _ _ => true end.

(** ** Vocabulary of the further statements *)

(** The value of a decimal numeral read after the value [acc]. *)
Fixpoint decimal_value (d : Decimal.uint) (acc : Z) : Z :=
  match d with
  | Decimal.Nil => acc
  | Decimal.D0 l => decimal_value l (10 * acc)
  | Decimal.D1 l => decimal_value l (10 * acc + 1)
  | Decimal.D2 l => decimal_value l (10 * acc + 2)
  | Decimal.D3 l => decimal_value l (10 * acc + 3)
  | Decimal.D4 l => decimal_value l (10 * acc + 4)
  | Decimal.D5 l => decimal_value l (10 * acc + 5)
  | Decimal.D6 l => decimal_value l (10 * acc + 6)
  | Decimal.D7 l => decimal_value l (10 * acc + 7)
  | Decimal.D8 l => decimal_value l (10 * acc + 8)
  | Decimal.D9 l => decimal_value l (10 * acc + 9)
  end.

(** The override that decides the timeout setting: the first one that is
    set. *)
Definition first_set_source (getenv : string -> option string)
    : outcome Z :=
  match getenv "TWS_WAIT_EMAIL_CODE", getenv "LOGIN_CODE_TIMEOUT" with
  | Some provider, _ => int_of_str provider
  | None, Some generic => int_of_str generic
  | None, None => Ret 30%Z
  end.

(** Every character is one that [\w] matches. *)
Fixpoint all_word (s : string) : bool :=
  match s with
  | EmptyString => true
  | String c r => is_word c && all_word r
  end.

(** The text does not go on with a word character. *)
Definition word_ends (after : string) : bool :=
  match after with
  | EmptyString => true
  | String c _ => negb (is_word c)
  end.

(** The calls the poll operation may make. *)
Definition poll_call (c : call) : bool :=
  match c with
  | CallTime | CallClose => true
  | CallSelect mailbox readonly => String.eqb mailbox "INBOX" && negb readonly
  | CallFetch _ message_parts => String.eqb message_parts "(RFC822)"
  | CallSleep delay => (delay =? 5)%Z
  | CallConnect _ | CallLogin _ _ => false
  end.

(** The calls [imap_login] may make. *)
Definition login_call (c : call) : bool :=
  match c with
  | CallConnect _ | CallLogin _ _ => true
  | CallSelect mailbox readonly => String.eqb mailbox "INBOX" && readonly
  | _ => false
  end.

(** The world [w'] has the calls of [w] and then some, all of which [P]
    allows. *)
Definition only_calls {St : Type} (P : call -> bool) (w w' : World St)
    : Prop :=
  exists new, calls w' = calls w ++ new /\ forallb P new = true.

Section Steady.

Context {St : Type} `{Collaborator St}.

(** What the clock says in a state. *)
Definition reading (s : St) : Q := fst (time s).

(** [steady lib min_t Inv]: in the states [Inv] holds of, which the
    commands do not leave, every command returns, no FETCH answer holds a
    confirmation, the clock never goes back, and a sleep of 5 takes the
    clock at least 5 further. *)
Definition steady (lib : Library) (min_t : option datetime)
    (Inv : St -> Prop) : Prop :=
  (forall s, Inv s ->
     Inv (snd (time s)) /\ (reading s <= reading (snd (time s)))%Q) /\
  (forall s, Inv s ->
     exists typ rep n s',
       select "INBOX" false s = (Ret (typ, rep), s') /\
       msg_count_of lib rep = Ret n /\
       Inv s' /\ (reading s <= reading s')%Q) /\
  (forall s i, Inv s ->
     exists typ rep s',
       fetch (str_of_nat i) "(RFC822)" s = (Ret (typ, rep), s') /\
       (scan_rep lib rep min_t = Ret Fallthrough \/
        scan_rep lib rep min_t = Ret (Returned None)) /\
       Inv s' /\ (reading s <= reading s')%Q) /\
  (forall s, Inv s ->
     exists s', sleep 5 s = (Ret tt, s') /\
                Inv s' /\ (reading s + 5 <= reading s')%Q) /\
  (forall s, Inv s -> exists s', close s = (Ret tt, s')).

End Steady.

(** ** An empty mailbox that records whether it is open *)

Module Idle.

(** The clock in seconds, and whether the session has not been closed. *)
Record Box := { seconds : Q; is_open : bool }.

Global Instance box : Collaborator Box := {|
  connect _ s := (Ret tt, s);
  login _ _ s := (Ret tt, s);
  select _ _ s := (Ret ("OK", [Some "0"]), s);
  fetch _ _ s := (Ret ("OK", [ItemNone]), s);
  close s := (Ret tt, {| seconds := seconds s; is_open := false |});
  time s := (seconds s, s);
  sleep delay s :=
    (Ret tt, {| seconds := Qred (seconds s + inject_Z delay);
                is_open := is_open s |})
|}.

Definition at_time (t : Q) (open : bool) (cs : list call) : World Box :=
  {| conn := {| seconds := t; is_open := open |}; calls := cs |}.

Definition start : World Box := at_time 0 true [].

End Idle.

(** ** A connection that drops, for running the error paths *)

Module Flaky.

(** The number of IMAP commands (the connection included) that are still
    answered, and the clock in seconds. *)
Record Link := { budget : nat; now : Q }.

Definition dropped : exn := Exc IMAP4_abort "socket error: EOF".

Definition command {A} (answer : A) (s : Link) : outcome A * Link :=
  match budget s with
  | O => (Raise dropped, s)
  | S n => (Ret answer, {| budget := n; now := now s |})
  end.

Global Instance link : Collaborator Link := {|
  connect _ := command tt;
  login _ _ := command tt;
  select _ _ := command ("OK", [Some "0"]);
  fetch _ _ := command ("OK", [ItemNone]);
  close := command tt;
  time s := (now s, s);
  sleep delay s :=
    (Ret tt, {| budget := budget s; now := Qred (now s + inject_Z delay) |})
|}.

Definition start (n : nat) : World Link :=
  {| conn := {| budget := n; now := 0 |}; calls := [] |}.

End Flaky.
Example split_at : split "@" "user@yahoo.com" = ["user"; "yahoo.com"].
Proof. reflexivity. Qed.
Example split_none : split "@" "nobody" = ["nobody"].
Proof. reflexivity. Qed.
Example split_keeps_empty : split " " "a  b " = ["a"; ""; "b"; ""].
Proof. reflexivity. Qed.
Example strip_both : strip "  482917 " = "482917".
Proof. reflexivity. Qed.
Example int_plain : int_of_str " 30 " = Ret 30%Z.
Proof. reflexivity. Qed.
Example int_underscore : int_of_str "1_000" = Ret 1000%Z.
Proof. reflexivity. Qed.
Example int_negative : int_of_str "-5" = Ret (-5)%Z.
Proof. reflexivity. Qed.
Example int_empty :
  int_of_str ""
  = Raise (Exc ValueError "invalid literal for int() with base 10: ''").
Proof. reflexivity. Qed.
Example int_separator_padding :
  int_of_str (String (ascii_of_N 31) "30")
  = Raise (Exc ValueError
             (String.append "invalid literal for int() with base 10: "
                (String.append "'"
                   (String backslash (String.append "x1f30" "'"))))).
Proof. reflexivity. Qed.
Example int_nbsp_padding : int_of_str (String (ascii_of_N 160) "5") = Ret 5%Z.
Proof. reflexivity. Qed.
Example int_trailing_text :
  int_of_str "5 x"
  = Raise (Exc ValueError "invalid literal for int() with base 10: '5 x'").
Proof. reflexivity. Qed.
Example int_quoted_apostrophe :
  int_of_str "it's"
  = Raise (Exc ValueError
             (String.append "invalid literal for int() with base 10: "
                (String double_quote (String.append "it's"
                                        (String double_quote EmptyString))))).
Proof. reflexivity. Qed.
Example int_double_underscore :
  int_of_str "1__0"
  = Raise (Exc ValueError "invalid literal for int() with base 10: '1__0'").
Proof. reflexivity. Qed.
Example str_42 : str_of_nat 42 = "42".
Proof. reflexivity. Qed.
Example str_0 : str_of_nat 0 = "0".
Proof. reflexivity. Qed.

Example resolve_yahoo :
  _get_imap_domain "user@yahoo.com" IMAP_MAPPING = Ret "imap.mail.yahoo.com".
Proof. vm_compute. reflexivity. Qed.
Example resolve_unknown :
  _get_imap_domain "user@unknown-domain.test" IMAP_MAPPING
  = Ret "imap.unknown-domain.test".
Proof. vm_compute. reflexivity. Qed.
Example resolve_no_at :
  _get_imap_domain "nobody" IMAP_MAPPING
  = Raise (Exc IndexError "list index out of range").
Proof. vm_compute. reflexivity. Qed.
Example resolve_two_at :
  _get_imap_domain "a@yahoo.com@b" IMAP_MAPPING = Ret "imap.mail.yahoo.com".
Proof. vm_compute. reflexivity. Qed.

(** * Properties *)

(** ** Strings *)

Lemma append_cons (c : ascii) (r b : string) :
  (String c r ++ b)%string = String c (r ++ b)%string.
Proof. reflexivity. Qed.

Lemma append_nil (b : string) : (EmptyString ++ b)%string = b.
Proof. reflexivity. Qed.

Section SplitFacts.

Variable sep : ascii.

Let sep_str : string := String sep EmptyString.

Lemma contains_char_cons (a : ascii) (r : string) :
  contains sep_str (String a r) = Ascii.eqb sep a || contains sep_str r.
Proof.
  unfold sep_str. cbn [contains startswith].
  destruct r; cbn [startswith]; now rewrite andb_true_r.
Qed.

Lemma contains_char_nil : contains sep_str EmptyString = false.
Proof. reflexivity. Qed.

Lemma split_not_nil (s : string) : split sep s <> [].
Proof.
  induction s as [|c r IH]; cbn [split]; [discriminate|].
  destruct (Ascii.eqb c sep); [discriminate|].
  destruct (split sep r); [contradiction | discriminate].
Qed.

(** Without the separator there is one piece. *)
Lemma split_without (s : string) :
  contains sep_str s = false -> split sep s = [s].
Proof.
  induction s as [|c r IH]; [reflexivity|].
  rewrite contains_char_cons. intros Hc.
  apply orb_false_iff in Hc as [Hne Hr].
  cbn [split]. rewrite Ascii.eqb_sym, Hne, (IH Hr). reflexivity.
Qed.

(** The first piece ends at the first separator. *)
Lemma split_first (s : string) :
  exists piece rest,
    split sep s = piece :: rest /\
    contains sep_str piece = false /\
    ((s = piece /\ rest = []) \/
     (exists after, s = (piece ++ String sep after)%string /\
                    rest = split sep after)).
Proof.
  induction s as [|c r IH].
  - exists EmptyString, []. repeat split; auto.
  - cbn [split]. destruct (Ascii.eqb_spec c sep) as [->|Hne].
    + exists EmptyString, (split sep r). repeat split; auto.
      right. exists r. auto.
    + destruct IH as (piece & rest & Hs & Hp & Hshape).
      rewrite Hs. exists (String c piece), rest. repeat split; auto.
      * rewrite contains_char_cons, Hp.
        destruct (Ascii.eqb_spec sep c); [congruence | reflexivity].
      * destruct Hshape as [[-> ->] | (after & -> & ->)]; [left | right]; auto.
        exists after. auto.
Qed.

Lemma contains_char_app (a b : string) :
  contains sep_str (a ++ b) = contains sep_str a || contains sep_str b.
Proof.
  induction a as [|c r IH]; [reflexivity|].
  rewrite append_cons, !contains_char_cons, IH.
  now rewrite orb_assoc.
Qed.

End SplitFacts.

(** The pieces of an address at ["@"]. *)
Lemma split_address (email : string) :
  (contains "@" email = false /\ split "@" email = [email]) \/
  (exists local domain rest,
     contains "@" email = true /\
     split "@" email = local :: domain :: rest /\
     contains "@" local = false /\ contains "@" domain = false /\
     (email = (local ++ "@" ++ domain)%string \/
      exists more, email = (local ++ "@" ++ domain ++ "@" ++ more)%string)).
Proof.
  destruct (split_first "@" email) as (local & rest & Hs & Hl & Hshape).
  destruct Hshape as [[-> ->] | (after & -> & ->)].
  - left. auto.
  - right.
    destruct (split_first "@" after) as (domain & rest' & Hs' & Hd & Hshape').
    exists local, domain, rest'. rewrite Hs in *.
    repeat split; auto.
    + rewrite contains_char_app, contains_char_cons. cbn.
      apply orb_true_r.
    + now rewrite Hs'.
    + destruct Hshape' as [[-> ->] | (more & -> & ->)]; [left | right]; auto.
      exists more. reflexivity.
Qed.

(** ** Domain resolver *)

Lemma get_imap_domain_pieces (email local domain : string)
    (rest : list string) (mapping : gmap string string) :
  split "@" email = local :: domain :: rest ->
  _get_imap_domain email mapping = Ret (endpoint_of mapping domain).
Proof.
  intros Hs. unfold _get_imap_domain, endpoint_of, index1. rewrite Hs. cbn.
  destruct (mapping !! domain); reflexivity.
Qed.

Lemma domain_of_pieces (email domain : string) :
  domain_of email = Some domain ->
  exists local rest, split "@" email = local :: domain :: rest.
Proof.
  unfold domain_of. destruct (split "@" email) as [|local [|d rest]];
    cbn; try discriminate.
  intros [= ->]. eauto.
Qed.

Lemma get_imap_domain_of (email domain : string)
    (mapping : gmap string string) :
  domain_of email = Some domain ->
  _get_imap_domain email mapping = Ret (endpoint_of mapping domain).
Proof.
  intros Hd. destruct (domain_of_pieces _ _ Hd) as (local & rest & Hs).
  eapply get_imap_domain_pieces; eauto.
Qed.

(** C8: for an address that contains ["@"], the resolver splits it at
    ["@"], answers the entry of the override table for the domain when
    there is one and ["imap."] followed by the domain otherwise; with the
    table as imported, ["user@yahoo.com"] resolves to the yahoo entry and
    ["user@unknown-domain.test"] to ["imap.unknown-domain.test"]. *)
Theorem get_imap_domain_resolves :
  (forall (email : string) (mapping : gmap string string),
      contains "@" email = true ->
      exists local domain rest,
        split "@" email = local :: domain :: rest /\
        _get_imap_domain email mapping =
          Ret (match mapping !! domain with
               | Some endpoint => endpoint
               | None => ("imap." ++ domain)%string
               end)) /\
  IMAP_MAPPING !! "yahoo.com" = Some "imap.mail.yahoo.com" /\
  _get_imap_domain "user@yahoo.com" IMAP_MAPPING = Ret "imap.mail.yahoo.com" /\
  _get_imap_domain "user@unknown-domain.test" IMAP_MAPPING
    = Ret "imap.unknown-domain.test".
Proof.
  split; [|repeat split; vm_compute; reflexivity].
  intros email mapping Hat.
  destruct (split_address email)
    as [[Hno _] | (local & domain & rest & _ & Hs & _)]; [congruence|].
  exists local, domain, rest. split; [exact Hs|].
  rewrite (get_imap_domain_pieces _ _ _ _ mapping Hs). unfold endpoint_of.
  destruct (mapping !! domain); reflexivity.
Qed.

Lemma get_imap_domain_resolves_witness :
  exists local domain rest,
    split "@" "user@icloud.com" = local :: domain :: rest /\
    _get_imap_domain "user@icloud.com" IMAP_MAPPING =
      Ret (match IMAP_MAPPING !! domain with
           | Some endpoint => endpoint
           | None => ("imap." ++ domain)%string
           end).
Proof.
  apply (proj1 get_imap_domain_resolves "user@icloud.com" IMAP_MAPPING).
  reflexivity.
Defined.

Lemma run_ops_lookup (ops : list resolver_op) (domain : string)
    (mapping : gmap string string) :
  forallb (fun op => negb (registers domain op)) ops = true ->
  run_ops ops mapping !! domain = mapping !! domain.
Proof.
  unfold run_ops. revert mapping.
  induction ops as [|op ops IH]; intros mapping Hops; [reflexivity|].
  cbn in Hops. apply andb_true_iff in Hops as [Hop Hrest].
  cbn [fold_left]. rewrite (IH _ Hrest).
  destruct op as [d e|]; [|reflexivity].
  cbn in Hop. unfold run_op, add_imap_mapping.
  apply lookup_insert_ne. intros ->.
  now rewrite String.eqb_refl in Hop.
Qed.

(** C9: after [add_imap_mapping domain endpoint], whatever was registered
    before, every later resolution of an address of that domain answers
    [endpoint], through any further operations that do not register the
    domain again: the last registration for a domain wins and stays. *)
Theorem add_imap_mapping_last_write_wins
    (mapping : gmap string string) (domain endpoint : string)
    (before after : list resolver_op) (email : string) :
  domain_of email = Some domain ->
  forallb (fun op => negb (registers domain op)) after = true ->
  _get_imap_domain email
    (run_ops after
       (add_imap_mapping domain endpoint (run_ops before mapping)))
  = Ret endpoint.
Proof.
  intros Hd Hafter.
  rewrite (get_imap_domain_of _ _ _ Hd). unfold endpoint_of.
  rewrite (run_ops_lookup _ _ _ Hafter). unfold add_imap_mapping.
  now rewrite lookup_insert_eq.
Qed.

Lemma add_imap_mapping_last_write_wins_witness :
  _get_imap_domain "a@example.com"
    (run_ops [Resolve "a@example.com"; Register "example.org" "mx.example.org";
              Resolve "b@example.com"]
       (add_imap_mapping "example.com" "imap.example.com:993"
          (run_ops [Register "example.com" "old.example.com"] IMAP_MAPPING)))
  = Ret "imap.example.com:993".
Proof.
  apply add_imap_mapping_last_write_wins; reflexivity.
Defined.

(** C10: the resolver answers only for an address that contains ["@"].
    For such an address the domain it uses is the text between the first
    and the second ["@"] (all the text after the first one when there is no
    second); for an address without ["@"] it raises [IndexError]. *)
Theorem get_imap_domain_needs_at (email : string)
    (mapping : gmap string string) :
  (contains "@" email = true ->
   exists local domain,
     contains "@" local = false /\ contains "@" domain = false /\
     (email = (local ++ "@" ++ domain)%string \/
      exists more, email = (local ++ "@" ++ domain ++ "@" ++ more)%string) /\
     _get_imap_domain email mapping = Ret (endpoint_of mapping domain)) /\
  (contains "@" email = false ->
   _get_imap_domain email mapping
   = Raise (Exc IndexError "list index out of range")).
Proof.
  destruct (split_address email)
    as [[Hno Hs] | (local & domain & rest & Hat & Hs & Hl & Hd & Hshape)].
  - split; [congruence|]. intros _.
    unfold _get_imap_domain. rewrite Hs. reflexivity.
  - split; [|congruence]. intros _.
    exists local, domain. repeat split; auto.
    eapply get_imap_domain_pieces; eauto.
Qed.

Lemma get_imap_domain_needs_at_witness :
  (exists local domain,
     contains "@" local = false /\ contains "@" domain = false /\
     ("a@hotmail.com@b" = (local ++ "@" ++ domain)%string \/
      exists more,
        "a@hotmail.com@b" = (local ++ "@" ++ domain ++ "@" ++ more)%string) /\
     _get_imap_domain "a@hotmail.com@b" IMAP_MAPPING
     = Ret (endpoint_of IMAP_MAPPING domain)) /\
  _get_imap_domain "nobody" IMAP_MAPPING
  = Raise (Exc IndexError "list index out of range").
Proof.
  split.
  - apply (proj1 (get_imap_domain_needs_at "a@hotmail.com@b" IMAP_MAPPING)).
    reflexivity.
  - apply (proj2 (get_imap_domain_needs_at "nobody" IMAP_MAPPING)).
    reflexivity.
Defined.

(** ** Configuration *)

Example timeout_default : TWS_WAIT_EMAIL_CODE (env_of None None) = Ret 30%Z.
Proof. reflexivity. Qed.
Example timeout_generic :
  TWS_WAIT_EMAIL_CODE (env_of None (Some "45")) = Ret 45%Z.
Proof. reflexivity. Qed.
Example timeout_provider :
  TWS_WAIT_EMAIL_CODE (env_of (Some "10") (Some "45")) = Ret 10%Z.
Proof. reflexivity. Qed.
Example timeout_empty_string :
  TWS_WAIT_EMAIL_CODE (env_of (Some "") (Some "45"))
  = Raise (Exc ValueError "invalid literal for int() with base 10: ''").
Proof. reflexivity. Qed.

(** C7, as stated, fails: with the provider-specific override set to 10
    and the generic override set to a text that is no integer, the first
    non-empty source is 10, but every source that is set is converted
    before the first is taken, and the conversion of the second raises. *)
Lemma timeout_converts_every_source :
  let getenv := env_of (Some "10") (Some "abc") in
  first_nonempty_source getenv = Ret 10%Z /\
  TWS_WAIT_EMAIL_CODE getenv
  = Raise (Exc ValueError "invalid literal for int() with base 10: 'abc'") /\
  TWS_WAIT_EMAIL_CODE getenv <> first_nonempty_source getenv.
Proof. repeat split. discriminate. Qed.

(** C7, amended: when each of the two overrides is either not set or an
    integer literal, the timeout setting is the first source that is set,
    in the order provider-specific override, generic override, default
    30. *)
Theorem timeout_first_set_source_wins (getenv : string -> option string) :
  unset_or_int (getenv "TWS_WAIT_EMAIL_CODE") = true ->
  unset_or_int (getenv "LOGIN_CODE_TIMEOUT") = true ->
  TWS_WAIT_EMAIL_CODE getenv =
    match getenv "TWS_WAIT_EMAIL_CODE", getenv "LOGIN_CODE_TIMEOUT" with
    | Some provider, _ => int_of_str provider
    | None, Some generic => int_of_str generic
    | None, None => Ret 30%Z
    end.
Proof.
  unfold TWS_WAIT_EMAIL_CODE, unset_or_int.
  destruct (getenv "TWS_WAIT_EMAIL_CODE") as [p|],
           (getenv "LOGIN_CODE_TIMEOUT") as [g|]; cbn;
    repeat match goal with
           | |- context [int_of_str ?v] => destruct (int_of_str v)
           end; cbn; intros; congruence.
Qed.

Lemma timeout_first_set_source_wins_witness :
  TWS_WAIT_EMAIL_CODE (env_of None (Some " 45 ")) = Ret 45%Z.
Proof.
  apply (timeout_first_set_source_wins (env_of None (Some " 45 ")));
    reflexivity.
Defined.

(** ** The handle in the body *)

Example handle_found :
  re_search_username
    "We noticed an attempt to log in to your account @exampleUser that seems suspicious. Was this you?"
  = Some "exampleUser".
Proof. reflexivity. Qed.
Example handle_needs_word :
  re_search_username "to log in to your account @! to log in to your account @b_2"
  = Some "b_2".
Proof. reflexivity. Qed.

Section ExtractUsername.

Variable lib : Library.

(** The loop over the parts leaves in [body] the text of the last part
    that passes the test. *)
Lemma walk_body_last (parts : list Message) (body : string) :
  Forall (fun part => exists b, decoded_payload lib part = Ret b)
         (List.filter plain_text_part parts) ->
  walk_body lib parts body =
    match last (List.filter plain_text_part parts) with
    | Some part => decoded_payload lib part
    | None => Ret body
    end.
Proof.
  revert body. induction parts as [|part rest IH]; intros body Hdec.
  - reflexivity.
  - cbn [walk_body List.filter] in *.
    destruct (plain_text_part part); [|now apply IH].
    inversion Hdec as [|? ? [b Hb] Hrest]; subst.
    rewrite Hb, (IH b Hrest).
    destruct (List.filter plain_text_part rest) as [|q qs] eqn:Hf.
    + cbn. now rewrite Hb.
    + change (last (part :: q :: qs)) with (last (q :: qs)).
      destruct (last (q :: qs)) eqn:Hlast; [reflexivity|].
      apply last_None in Hlast. discriminate.
Qed.

End ExtractUsername.

(** C4, as stated, fails: in a multipart message with two plain-text
    parts that have no [Content-Disposition] header, the handle comes from
    the second of them, not from the first. *)
Lemma extract_username_not_first_part :
  is_multipart Demo.two_bodies = true /\
  handle_of_first_part Demo.lib Demo.two_bodies = Ret (Some "firstUser") /\
  _extract_username Demo.lib Demo.two_bodies = Ret (Some "secondUser") /\
  _extract_username Demo.lib Demo.two_bodies
  <> handle_of_first_part Demo.lib Demo.two_bodies.
Proof. repeat split. discriminate. Qed.

(** C4, amended: for a multipart message, the handle is extracted by
    matching the handle pattern against the last part of its walk that
    passes the test of the loop: its content type is ["text/plain"] and
    the text of its [Content-Disposition] header (["None"] when there is
    no such header) does not contain ["attachment"], letter case
    observed.  This holds when every part that passes the test decodes;
    when no part passes it, the pattern is matched against the empty
    text. *)
Theorem extract_username_uses_last_part (lib : Library) (msg : Message) :
  is_multipart msg = true ->
  Forall (fun part => exists b, decoded_payload lib part = Ret b)
         (List.filter plain_text_part (walk msg)) ->
  _extract_username lib msg =
    match last (List.filter plain_text_part (walk msg)) with
    | Some part =>
        match decoded_payload lib part with
        | Raise e => Raise e
        | Ret body => Ret (re_search_username body)
        end
    | None => Ret None
    end.
Proof.
  intros Hmulti Hdec. unfold _extract_username.
  rewrite Hmulti, (walk_body_last lib _ _ Hdec).
  destruct (last (List.filter plain_text_part (walk msg))); reflexivity.
Qed.

Lemma extract_username_uses_last_part_witness :
  _extract_username Demo.lib Demo.two_bodies = Ret (Some "secondUser").
Proof.
  apply (extract_username_uses_last_part Demo.lib Demo.two_bodies).
  - reflexivity.
  - repeat constructor; eexists; reflexivity.
Defined.

(** The test of the loop looks for ["attachment"] as it is written: a part
    whose disposition is spelled with a capital letter passes it. *)
Example extract_username_capital_attachment :
  _extract_username Demo.lib
    (Multipart [] "multipart/mixed"
       [Leaf [] "text/plain" "to log in to your account @realUser";
        Leaf [("Content-Disposition", "Attachment; filename=note.txt")]
             "text/plain" "to log in to your account @attachedUser"])
  = Ret (Some "attachedUser").
Proof. reflexivity. Qed.

(** ** The last piece of a subject and its last token *)










(** ** Message scanner *)





Section ScanFacts.

Context {St : Type} `{Collaborator St}.
Variable lib : Library.

(** A call on a collaborator is added at the end of the record. *)
Lemma invoke_calls {A} (c : call) (op : St -> outcome A * St)
    (w w' : World St) (r : outcome A) :
  invoke c op w = (r, w') -> calls w' = calls w ++ [c].
Proof.
  unfold invoke. destruct (op (conn w)). intros [= _ <-]. reflexivity.
Qed.

(** One iteration of the scan. *)
Lemma scan_from_S (i : nat) (min_t : option datetime) (w : World St) :
  scan_from lib (S i) min_t w =
    match imap_fetch (str_of_nat (S i)) "(RFC822)" w with
    | (Ret (_, rep), w1) =>
        match scan_rep lib rep min_t with
        | Ret (Returned res) => (Ret res, w1)
        | Ret Fallthrough => scan_from lib i min_t w1
        | Raise e => (Raise e, w1)
        end
    | (Raise e, w1) => (Raise e, w1)
    end.
Proof.
  cbn [scan_from]. unfold bind at 1.
  destruct (imap_fetch (str_of_nat (S i)) "(RFC822)" w) as [[[typ rep]|e] w1];
    [|reflexivity].
  unfold bind, lift.
  destruct (scan_rep lib rep min_t) as [[|res]|e]; reflexivity.
Qed.



Lemma split_last_some (sep : ascii) (s : string) :
  exists piece, last (split sep s) = Some piece.
Proof.
  destruct (last (split sep s)) eqn:Hlast; [eauto|].
  apply last_None in Hlast. now apply split_not_nil in Hlast.
Qed.



(** The scan fetches the messages from the highest number downwards,
    without a gap, whatever comes of it. *)
Lemma scan_from_calls (i : nat) (min_t : option datetime) (w w' : World St)
    (out : outcome (option EmailCodeResult)) :
  scan_from lib i min_t w = (out, w') ->
  exists n, n <= i /\ calls w' = calls w ++ fetch_calls i n.
Proof.
  revert w. induction i as [|i IH]; intros w Hrun.
  - injection Hrun as _ <-. exists 0. split; [lia|].
    cbn. now rewrite app_nil_r.
  - rewrite scan_from_S in Hrun.
    destruct (imap_fetch (str_of_nat (S i)) "(RFC822)" w)
      as [[[typ rep]|e] w1] eqn:Hfetch.
    + apply invoke_calls in Hfetch.
      destruct (scan_rep lib rep min_t) as [[|res]|e].
      * apply IH in Hrun as (n & Hn & Hcalls). exists (S n).
        split; [lia|]. rewrite Hcalls, Hfetch, <- app_assoc.
        cbn [fetch_calls]. now replace (S i - 1) with i by lia.
      * injection Hrun as _ <-. exists 1. split; [lia|]. exact Hfetch.
      * injection Hrun as _ <-. exists 1. split; [lia|]. exact Hfetch.
    + apply invoke_calls in Hfetch.
      injection Hrun as _ <-. exists 1. split; [lia|]. exact Hfetch.
Qed.


End ScanFacts.



Example scan_skips_older_match :
  let w := Demo.start ["raw:old_code"; "raw:newsletter"; "raw:late_news"] [] in
  _wait_email_code Demo.lib 3 None w
  = (Ret (Some {| code := "111111"; username := None |}),
     {| conn := conn w; calls := [fetch_call 3; fetch_call 2; fetch_call 1] |}).
Proof. reflexivity. Qed.




(** ** Poll loop *)

Lemma closes_app (a b : list call) : closes (a ++ b) = closes a + closes b.
Proof. unfold closes. now rewrite List.filter_app, length_app. Qed.

Lemma closes_fetch_calls (hi n : nat) : closes (fetch_calls hi n) = 0.
Proof.
  revert hi. induction n as [|n IH]; intros hi; [reflexivity|].
  cbn [fetch_calls]. change (closes (fetch_call hi :: ?l)) with (closes l).
  apply (IH (hi - 1)).
Qed.

Section PollFacts.

Context {St : Type} `{Collaborator St}.
Variable lib : Library.
Variable timeout : Z.

Lemma invoke_closes {A} (c : call) (op : St -> outcome A * St)
    (w w' : World St) (r : outcome A) :
  invoke c op w = (r, w') -> closes (calls w') = closes (calls w) + closes [c].
Proof.
  intros Hrun. apply invoke_calls in Hrun. now rewrite Hrun, closes_app.
Qed.

Lemma wait_email_code_closes (count : Z) (min_t : option datetime)
    (w w' : World St) (out : outcome (option EmailCodeResult)) :
  _wait_email_code lib count min_t w = (out, w') ->
  closes (calls w') = closes (calls w).
Proof.
  intros Hrun. apply scan_from_calls in Hrun as (n & _ & ->).
  rewrite closes_app, closes_fetch_calls. lia.
Qed.

(** A turn of the loop never closes the session. *)
Lemma poll_turn_closes (min_t : option datetime) (start_time : Q)
    (w w' : World St) (out : outcome (flow EmailCodeResult)) :
  poll_turn lib timeout min_t start_time w = (out, w') ->
  closes (calls w') = closes (calls w).
Proof.
  unfold poll_turn, bind, lift, ret, raise.
  destruct (imap_select "INBOX" false w) as [[[typ rep]|e] w1] eqn:Hsel;
    apply invoke_closes in Hsel; cbn in Hsel;
    [|intros [= _ <-]; lia].
  destruct (msg_count_of lib rep) as [msg_count|e]; [|intros [= _ <-]; lia].
  destruct (_wait_email_code lib msg_count min_t w1) as [[[r|]|e] w2] eqn:Hscan;
    apply wait_email_code_closes in Hscan;
    try (intros [= _ <-]; lia).
  destruct (time_time w2) as [[now|e] w3] eqn:Htime;
    unfold time_time in Htime; apply invoke_closes in Htime; cbn in Htime;
    [|intros [= _ <-]; lia].
  destruct (Qlt_b (inject_Z timeout) (now - start_time));
    [intros [= _ <-]; lia|].
  destruct (asyncio_sleep 5 w3) as [[[]|e] w4] eqn:Hsleep;
    apply invoke_closes in Hsleep; cbn in Hsleep;
    intros [= _ <-]; lia.
Qed.

Lemma poll_loop_closes (fuel : nat) (min_t : option datetime)
    (start_time : Q) (w w' : World St) (out : outcome EmailCodeResult) :
  poll_loop lib timeout fuel min_t start_time w = Some (out, w') ->
  closes (calls w') = closes (calls w).
Proof.
  revert w. induction fuel as [|fuel IH]; intros w; cbn [poll_loop];
    [discriminate|].
  destruct (poll_turn lib timeout min_t start_time w) as [[[|r]|e] w1] eqn:Hturn;
    apply poll_turn_closes in Hturn.
  - intros Hrun. apply IH in Hrun. lia.
  - intros [= _ <-]. exact Hturn.
  - intros [= _ <-]. exact Hturn.
Qed.

(** The body of [try] never closes the session. *)
Lemma poll_body_closes (fuel : nat) (min_t : option datetime)
    (w w' : World St) (out : outcome EmailCodeResult) :
  poll_body lib timeout fuel min_t w = Some (out, w') ->
  closes (calls w') = closes (calls w).
Proof.
  unfold poll_body.
  destruct (time_time w) as [[start_time|e] w1] eqn:Htime;
    unfold time_time in Htime; apply invoke_closes in Htime; cbn in Htime.
  - intros Hrun. apply poll_loop_closes in Hrun. lia.
  - intros [= _ <-]. lia.
Qed.

(** The handler, when its own two calls return. *)
Lemma poll_handler_returns (e : exn) (w1 : World St) (typ : string)
    (rep : list (option string)) (s2 s3 : St) :
  select "INBOX" false (conn w1) = (Ret (typ, rep), s2) ->
  close s2 = (Ret tt, s3) ->
  poll_handler e w1 =
    (Raise e, {| conn := s3;
                 calls := calls w1 ++ [CallSelect "INBOX" false; CallClose] |}).
Proof.
  intros Hsel Hclose.
  unfold poll_handler, bind, raise, imap_select, imap_close, invoke.
  rewrite Hsel. cbn. rewrite Hclose. now rewrite <- app_assoc.
Qed.






End PollFacts.

Example poll_second_scan :
  imap_get_email_code Demo.lib 30 5 "user@example.com" None
    (Demo.start [] ["raw:new_code"])
  = Some (Ret {| code := "482917"; username := None |},
          {| conn := {| Demo.messages := ["raw:new_code"];
                        Demo.pending := [];
                        Demo.clock := 5;
                        Demo.password := "secret" |};
             calls := [CallTime; CallSelect "INBOX" false; CallTime;
                       CallSleep 5; CallSelect "INBOX" false; fetch_call 1] |}).
Proof. reflexivity. Qed.

(** C1, as stated, fails: when the poll operation returns a result, the
    session has been neither selected again nor closed; no [close] call is
    made at all. *)
Lemma poll_success_does_not_close :
  let w := Demo.start ["raw:new_code"] [] in
  exists w',
    imap_get_email_code Demo.lib 30 5 "user@example.com" None w
    = Some (Ret {| code := "482917"; username := None |}, w') /\
    calls w' = [CallTime; CallSelect "INBOX" false; fetch_call 1] /\
    closes (calls w') = 0 /\
    closes (calls w') <> 1.
Proof. eexists. repeat split. discriminate. Qed.

(** C1, amended: when the body of the poll operation leaves by an
    exception of class [Exception] (the timeout error or one that comes out
    of select, fetch or parsing) and the two calls of the cleanup return,
    the inbox is selected and the session closed, in that order and as the
    last two calls, the session is closed exactly once in the whole
    operation, and the same exception is raised to the caller.  When the
    operation returns a result the session is not closed, and an exception
    that is not of class [Exception] passes with no cleanup. *)
Theorem poll_closes_once_on_error
    {St : Type} `{Collaborator St} (lib : Library) (timeout : Z)
    (fuel : nat) (email : string) (min_t : option datetime) (w : World St) :
  (forall (e : exn) (w1 : World St) (typ : string)
          (rep : list (option string)) (s2 s3 : St),
      poll_body lib timeout fuel min_t w = Some (Raise e, w1) ->
      is_Exception (exn_class e) = true ->
      select "INBOX" false (conn w1) = (Ret (typ, rep), s2) ->
      close s2 = (Ret tt, s3) ->
      let w' := {| conn := s3;
                   calls := calls w1 ++ [CallSelect "INBOX" false; CallClose] |} in
      imap_get_email_code lib timeout fuel email min_t w = Some (Raise e, w') /\
      closes (calls w1) = closes (calls w) /\
      closes (calls w') = closes (calls w) + 1) /\
  (forall (r : EmailCodeResult) (w1 : World St),
      poll_body lib timeout fuel min_t w = Some (Ret r, w1) ->
      imap_get_email_code lib timeout fuel email min_t w = Some (Ret r, w1) /\
      closes (calls w1) = closes (calls w)) /\
  (forall (e : exn) (w1 : World St),
      poll_body lib timeout fuel min_t w = Some (Raise e, w1) ->
      is_Exception (exn_class e) = false ->
      imap_get_email_code lib timeout fuel email min_t w = Some (Raise e, w1) /\
      closes (calls w1) = closes (calls w)).
Proof.
  split; [|split].
  - intros e w1 typ rep s2 s3 Hbody Hexc Hsel Hclose w'.
    pose proof (poll_body_closes _ _ _ _ _ _ _ Hbody) as Hsame.
    unfold imap_get_email_code. rewrite Hbody, Hexc.
    rewrite (poll_handler_returns e w1 typ rep s2 s3 Hsel Hclose).
    repeat split; [exact Hsame|].
    subst w'. cbn [calls]. rewrite closes_app, Hsame. reflexivity.
  - intros r w1 Hbody. unfold imap_get_email_code. rewrite Hbody.
    split; [reflexivity|]. eapply poll_body_closes; eauto.
  - intros e w1 Hbody Hexc. unfold imap_get_email_code.
    rewrite Hbody, Hexc.
    split; [reflexivity|]. eapply poll_body_closes; eauto.
Qed.

(** A message whose date does not parse makes the scan raise. *)
Lemma poll_closes_once_on_error_witness :
  let w := Demo.start ["raw:unparsable"] [] in
  exists w',
    imap_get_email_code Demo.lib 30 5 "user@example.com" None w
    = Some (Raise (Exc ValueError "time data does not match format"), w') /\
    calls w' = [CallTime; CallSelect "INBOX" false; fetch_call 1;
                CallSelect "INBOX" false; CallClose] /\
    closes (calls w') = closes (calls w) + 1.
Proof.
  intros w. eexists.
  destruct (proj1 (poll_closes_once_on_error Demo.lib 30 5
                     "user@example.com" None w)
              (Exc ValueError "time data does not match format")
              {| conn := conn w;
                 calls := [CallTime; CallSelect "INBOX" false; fetch_call 1] |}
              "OK" [Some "1"] (conn w) (conn w))
    as (Hrun & _ & Hcloses); try reflexivity.
  split; [exact Hrun|]. split; [reflexivity | exact Hcloses].
Defined.




(** ** Mailbox session *)

Lemma split_two_contains (sep : ascii) (s a b : string) :
  split sep s = [a; b] -> contains (String sep EmptyString) s = true.
Proof.
  intros Hs. destruct (contains (String sep EmptyString) s) eqn:Hc;
    [reflexivity|].
  apply split_without in Hc. congruence.
Qed.

Section LoginFacts.

Context {St : Type} `{Collaborator St}.

(** Up to the connection: the endpoint is resolved and the connection
    made. *)
Lemma imap_login_connected (mapping : gmap string string)
    (email password domain : string) (imap : session)
    (w : World St) (s1 : St) :
  _get_imap_domain email mapping = Ret domain ->
  session_for domain imap ->
  connect imap (conn w) = (Ret tt, s1) ->
  imap_login mapping email password w =
    let w1 := {| conn := s1; calls := calls w ++ [CallConnect imap] |} in
    match bind (imap_login_cmd email password)
               (fun _ => imap_select "INBOX" true) w1 with
    | (Ret _, w') => (Ret imap, w')
    | (Raise e, w') =>
        if is_IMAP4_error (exn_class e)
        then (Raise (ExcFrom EmailLoginError "Email login error" e), w')
        else (Raise e, w')
    end.
Proof.
  intros Hdomain Hsession Hconnect.
  unfold imap_login. unfold bind at 1, lift. rewrite Hdomain.
  destruct Hsession as [host port Hsplit | Hplain].
  - rewrite (split_two_contains _ _ _ _ Hsplit), Hsplit.
    unfold bind at 1. unfold bind at 1, lift, unpack2.
    unfold bind at 1, imap_connect, invoke, ret. now rewrite Hconnect.
  - rewrite Hplain.
    unfold bind at 1. unfold bind at 1, imap_connect, invoke, ret.
    now rewrite Hconnect.
Qed.

End LoginFacts.

(** C6, as stated, fails: a login that succeeds is not always followed by
    the return of the session.  On a connection that drops right after the
    login, the [select] raises, and [imap_login] raises [EmailLoginError]
    instead of returning. *)
Lemma imap_login_select_failure_no_session :
  let w := Flaky.start 2 in
  let after_connect := {| Flaky.budget := 1; Flaky.now := 0 |} in
  let after_login := {| Flaky.budget := 0; Flaky.now := 0 |} in
  connect (IMAP4_SSL "imap.mail.me.com") (conn w) = (Ret tt, after_connect) /\
  login "user@icloud.com" "secret" after_connect = (Ret tt, after_login) /\
  imap_login IMAP_MAPPING "user@icloud.com" "secret" w
  = (Raise (ExcFrom EmailLoginError "Email login error" Flaky.dropped),
     {| conn := after_login;
        calls := [CallConnect (IMAP4_SSL "imap.mail.me.com");
                  CallLogin "user@icloud.com" "secret";
                  CallSelect "INBOX" true] |}) /\
  forall (imap : session) (w' : World Flaky.Link),
    imap_login IMAP_MAPPING "user@icloud.com" "secret" w <> (Ret imap, w').
Proof.
  intros w after_connect after_login.
  assert (Hrun : imap_login IMAP_MAPPING "user@icloud.com" "secret" w
                 = (Raise (ExcFrom EmailLoginError "Email login error"
                             Flaky.dropped),
                    {| conn := after_login;
                       calls := [CallConnect (IMAP4_SSL "imap.mail.me.com");
                                 CallLogin "user@icloud.com" "secret";
                                 CallSelect "INBOX" true] |}))
    by (vm_compute; reflexivity).
  split; [reflexivity|]. split; [reflexivity|]. split; [exact Hrun|].
  intros imap w'. rewrite Hrun. discriminate.
Qed.

(** C6, amended: once the endpoint is resolved and the connection made, a
    login that the server rejects makes [imap_login] raise
    [EmailLoginError] with the server's error as its cause, after one
    connection and one login call and nothing else; a login that succeeds
    is followed by the selection of the inbox in read-only mode, and when
    that selection returns the session is returned. *)
Theorem imap_login_contract
    {St : Type} `{Collaborator St} (mapping : gmap string string)
    (email password domain : string) (imap : session)
    (w : World St) (s1 : St) :
  _get_imap_domain email mapping = Ret domain ->
  session_for domain imap ->
  connect imap (conn w) = (Ret tt, s1) ->
  (forall (e : exn) (s2 : St),
      login email password s1 = (Raise e, s2) ->
      is_IMAP4_error (exn_class e) = true ->
      imap_login mapping email password w =
        (Raise (ExcFrom EmailLoginError "Email login error" e),
         {| conn := s2;
            calls := calls w ++ [CallConnect imap;
                                 CallLogin email password] |})) /\
  (forall (s2 s3 : St) (typ : string) (rep : list (option string)),
      login email password s1 = (Ret tt, s2) ->
      select "INBOX" true s2 = (Ret (typ, rep), s3) ->
      imap_login mapping email password w =
        (Ret imap,
         {| conn := s3;
            calls := calls w ++ [CallConnect imap;
                                 CallLogin email password;
                                 CallSelect "INBOX" true] |})).
Proof.
  intros Hdomain Hsession Hconnect.
  rewrite (imap_login_connected _ _ _ _ _ _ _ Hdomain Hsession Hconnect).
  cbv zeta. unfold bind, imap_login_cmd, imap_select, invoke. cbn [conn calls].
  split.
  - intros e s2 Hlogin Herr. rewrite Hlogin, Herr.
    now rewrite <- app_assoc.
  - intros s2 s3 typ rep Hlogin Hselect. rewrite Hlogin. cbn [conn calls].
    rewrite Hselect. now rewrite <- !app_assoc.
Qed.

Lemma imap_login_contract_witness :
  imap_login IMAP_MAPPING "user@yahoo.com" "wrong" (Demo.start [] [])
  = (Raise (ExcFrom EmailLoginError "Email login error"
              (Exc IMAP4_error "[AUTHENTICATIONFAILED] Invalid credentials")),
     {| conn := conn (Demo.start [] []);
        calls := [CallConnect (IMAP4_SSL "imap.mail.yahoo.com");
                  CallLogin "user@yahoo.com" "wrong"] |}) /\
  imap_login IMAP_MAPPING "user@proton.me" "secret" (Demo.start [] [])
  = (Ret (IMAP4 "127.0.0.1" "1143"),
     {| conn := conn (Demo.start [] []);
        calls := [CallConnect (IMAP4 "127.0.0.1" "1143");
                  CallLogin "user@proton.me" "secret";
                  CallSelect "INBOX" true] |}).
Proof.
  split.
  - apply (proj1 (imap_login_contract IMAP_MAPPING "user@yahoo.com" "wrong"
                    "imap.mail.yahoo.com" (IMAP4_SSL "imap.mail.yahoo.com")
                    (Demo.start [] []) (conn (Demo.start [] []))
                    ltac:(vm_compute; reflexivity)
                    ltac:(apply for_host; reflexivity)
                    ltac:(reflexivity)));
      reflexivity.
  - apply (proj2 (imap_login_contract IMAP_MAPPING "user@proton.me" "secret"
                    "127.0.0.1:1143" (IMAP4 "127.0.0.1" "1143")
                    (Demo.start [] []) (conn (Demo.start [] []))
                    ltac:(vm_compute; reflexivity)
                    ltac:(apply for_host_port; reflexivity)
                    ltac:(reflexivity))
               (conn (Demo.start [] [])) (conn (Demo.start [] []))
               "OK" [Some "0"]);
      reflexivity.
Defined.

(** * Further properties *)

(** ** Domain resolver *)

Lemma domain_of_no_at (email domain : string) :
  domain_of email = Some domain -> contains "@" domain = false.
Proof.
  intros Hd.
  destruct (split_address email)
    as [[_ Hs] | (local & d & rest & _ & Hs & _ & Hno & _)];
    unfold domain_of in Hd; rewrite Hs in Hd; cbn in Hd; congruence.
Qed.

Lemma get_imap_domain_by_domain (email : string)
    (m1 m2 : gmap string string) :
  (forall domain, domain_of email = Some domain -> m1 !! domain = m2 !! domain) ->
  _get_imap_domain email m1 = _get_imap_domain email m2.
Proof.
  intros Hsame. unfold _get_imap_domain, index1.
  unfold domain_of in Hsame.
  destruct (split "@" email !! 1%nat) as [domain|]; [|reflexivity].
  now rewrite (Hsame domain eq_refl).
Qed.

(** X1: registering an endpoint for a domain changes the resolution of no
    address of another domain, and of no address without a domain. *)
Theorem add_imap_mapping_other_domain
    (mapping : gmap string string) (domain endpoint email : string) :
  domain_of email <> Some domain ->
  _get_imap_domain email (add_imap_mapping domain endpoint mapping)
  = _get_imap_domain email mapping.
Proof.
  intros Hother. apply get_imap_domain_by_domain.
  intros d Hd. unfold add_imap_mapping.
  apply lookup_insert_ne. congruence.
Qed.

Lemma add_imap_mapping_other_domain_witness :
  _get_imap_domain "user@yahoo.com"
    (add_imap_mapping "example.com" "imap.example.com:993" IMAP_MAPPING)
  = _get_imap_domain "user@yahoo.com" IMAP_MAPPING.
Proof.
  apply add_imap_mapping_other_domain. vm_compute. discriminate.
Defined.

(** X2: an entry registered under a key that contains ["@"] is never
    read: every address resolves as it did before. *)
Theorem add_imap_mapping_key_with_at
    (mapping : gmap string string) (key endpoint : string) :
  contains "@" key = true ->
  forall email,
    _get_imap_domain email (add_imap_mapping key endpoint mapping)
    = _get_imap_domain email mapping.
Proof.
  intros Hkey email. apply add_imap_mapping_other_domain.
  intros Hd. apply domain_of_no_at in Hd. congruence.
Qed.

Lemma add_imap_mapping_key_with_at_witness :
  _get_imap_domain "a@b@example.com"
    (add_imap_mapping "b@example.com" "mx.example.com" IMAP_MAPPING)
  = _get_imap_domain "a@b@example.com" IMAP_MAPPING.
Proof.
  apply (add_imap_mapping_key_with_at IMAP_MAPPING "b@example.com"
           "mx.example.com" ltac:(reflexivity) "a@b@example.com").
Defined.

(** ** Configuration *)

Lemma int_of_str_raises (s : string) (e : exn) :
  int_of_str s = Raise e -> exn_class e = ValueError.
Proof.
  unfold int_of_str.
  repeat match goal with
         | |- context [match ?x with _ => _ end] => destruct x
         end; intros [= <-]; reflexivity.
Qed.

(** X3: the timeout setting is defined exactly when each override that
    is set is an integer literal, and it is then the first source that is
    set; otherwise computing it raises [ValueError], and nothing else. *)
Theorem timeout_setting_cases (getenv : string -> option string) :
  match TWS_WAIT_EMAIL_CODE getenv with
  | Ret v =>
      unset_or_int (getenv "TWS_WAIT_EMAIL_CODE") = true /\
      unset_or_int (getenv "LOGIN_CODE_TIMEOUT") = true /\
      first_set_source getenv = Ret v
  | Raise e =>
      exn_class e = ValueError /\
      (unset_or_int (getenv "TWS_WAIT_EMAIL_CODE") = false \/
       unset_or_int (getenv "LOGIN_CODE_TIMEOUT") = false)
  end.
Proof.
  unfold TWS_WAIT_EMAIL_CODE, first_set_source, unset_or_int.
  destruct (getenv "TWS_WAIT_EMAIL_CODE") as [p|],
           (getenv "LOGIN_CODE_TIMEOUT") as [g|]; cbn;
    repeat match goal with
           | |- context [int_of_str ?v] =>
               let H := fresh "Hint" in destruct (int_of_str v) eqn:H
           end; cbn;
    repeat match goal with
           | H : int_of_str _ = Raise _ |- _ => apply int_of_str_raises in H
           end; auto.
Qed.

(** ** Numbers and their decimal text *)

Lemma int_scan_numeral (d : Decimal.uint) (acc count : Z) (prev : bool) :
  d <> Decimal.Nil \/ prev = true ->
  int_scan (NilEmpty.string_of_uint d) acc count prev
  = Some (decimal_value d acc,
          (count + Z.of_nat (String.length (NilEmpty.string_of_uint d)))%Z,
          EmptyString).
Proof.
  revert acc count prev.
  induction d as [|d IH|d IH|d IH|d IH|d IH|d IH|d IH|d IH|d IH|d IH];
    intros acc count prev Hok;
    [destruct Hok as [Hne | ->]; [contradiction|];
     cbn; now rewrite Z.add_0_r|..];
    cbn [NilEmpty.string_of_uint decimal_value String.length];
    cbn [int_scan];
    match goal with
    | |- context [is_digit ?c] => change (is_digit c) with true
    end;
    match goal with
    | |- context [Z.of_N (ord ?c - 48)] =>
        let v := eval vm_compute in (Z.of_N (ord c - 48)) in
        change (Z.of_N (ord c - 48)) with v
    end;
    cbv iota; (rewrite IH by (now right));
    apply f_equal;
    (apply f_equal2; [apply f_equal2; [f_equal; lia | lia] | reflexivity]).
Qed.

Lemma int_lstrip_numeral (d : Decimal.uint) :
  int_lstrip (NilEmpty.string_of_uint d) = NilEmpty.string_of_uint d.
Proof. destruct d; reflexivity. Qed.

Lemma numeral_no_whitespace (d : Decimal.uint) :
  no_whitespace (NilEmpty.string_of_uint d) = true.
Proof. induction d; cbn; auto. Qed.

Lemma pos_of_uint_acc_value (d : Decimal.uint) (p : positive) :
  Z.pos (Pos.of_uint_acc d p) = decimal_value d (Z.pos p).
Proof.
  revert p. induction d; intros p; cbn [Pos.of_uint_acc decimal_value];
    try reflexivity; rewrite IHd; f_equal; lia.
Qed.

Lemma of_uint_value (d : Decimal.uint) : Z.of_uint d = decimal_value d 0.
Proof.
  unfold Z.of_uint.
  induction d; cbn [Pos.of_uint decimal_value]; try reflexivity;
    try exact IHd;
    cbn [Z.of_N]; rewrite pos_of_uint_acc_value; reflexivity.
Qed.

Lemma pos_to_uint_not_nil (p : positive) : Pos.to_uint p <> Decimal.Nil.
Proof.
  intros Hnil.
  pose proof (DecimalPos.Unsigned.of_to p) as Hof.
  rewrite Hnil in Hof. discriminate.
Qed.

(** [int(str(z)) == z], for a number of at most [int_max_str_digits]
    digits. *)
Lemma int_of_str_of_Z (z : Z) :
  (Z.of_nat (String.length (str_of_Z (Z.abs z))) <= int_max_str_digits)%Z ->
  int_of_str (str_of_Z z) = Ret z.
Proof.
  intros Hdigits.
  pose proof (DecimalZ.of_to z) as Hof.
  destruct z as [|p|p]; [reflexivity|..];
    pose proof (pos_to_uint_not_nil p) as Hne;
    match type of Hdigits with
    | context [Z.abs ?z] => change (Z.abs z) with (Z.pos p) in Hdigits
    end;
    unfold str_of_Z in *;
    cbn [Z.to_int NilZero.string_of_int Z.of_int] in *;
    rewrite of_uint_value in Hof;
    assert (Hs : NilZero.string_of_uint (Pos.to_uint p)
                 = NilEmpty.string_of_uint (Pos.to_uint p))
      by (destruct (Pos.to_uint p); [contradiction | reflexivity..]);
    rewrite Hs in *;
    pose proof (int_scan_numeral (Pos.to_uint p) 0 0 false (or_introl Hne))
      as Hscan;
    assert (Hlimit : (int_max_str_digits
                      <? 0 + Z.of_nat (String.length
                                         (NilEmpty.string_of_uint
                                            (Pos.to_uint p))))%Z = false)
      by (apply Z.ltb_ge; lia);
    unfold int_of_str.
  - rewrite int_lstrip_numeral.
    assert (Hsign : match NilEmpty.string_of_uint (Pos.to_uint p) with
                    | String c r =>
                        if Ascii.eqb c "-" then ((-1)%Z, r)
                        else if Ascii.eqb c "+" then (1%Z, r)
                        else (1%Z, NilEmpty.string_of_uint (Pos.to_uint p))
                    | EmptyString =>
                        (1%Z, NilEmpty.string_of_uint (Pos.to_uint p))
                    end = (1%Z, NilEmpty.string_of_uint (Pos.to_uint p)))
      by (destruct (Pos.to_uint p); reflexivity).
    rewrite Hsign, Hscan, Hlimit. cbn [all_int_space].
    f_equal. lia.
  - cbn [int_lstrip]. change (is_int_space "-") with false. cbv iota.
    change (Ascii.eqb "-" "-") with true. cbv iota.
    rewrite Hscan, Hlimit. cbn [all_int_space].
    f_equal. lia.
Qed.

(** X4: the message count read off a SELECT answer.  With no data, or
    with [None] as the first item, the count is 0; a first item that
    decodes to the decimal text of a number of at most 4300 digits gives
    that number ([int(str(n)) == n]); one that decodes to a text that
    [int()] refuses raises [ValueError]. *)
Theorem msg_count_of_cases (lib : Library) :
  msg_count_of lib [] = Ret 0%Z /\
  (forall rest, msg_count_of lib (None :: rest) = Ret 0%Z) /\
  (forall (n : Z) (rest : list (option string)),
      (Z.of_nat (String.length (str_of_Z (Z.abs n))) <= 4300)%Z ->
      bytes_decode lib (str_of_Z n) = Ret (str_of_Z n) ->
      msg_count_of lib (Some (str_of_Z n) :: rest) = Ret n) /\
  (forall (b s : string) (rest : list (option string)),
      bytes_decode lib b = Ret s ->
      (forall n, int_of_str s <> Ret n) ->
      exists e, msg_count_of lib (Some b :: rest) = Raise e /\
                exn_class e = ValueError).
Proof.
  repeat split.
  - intros n rest Hdigits Hdec. cbn [msg_count_of]. rewrite Hdec.
    now apply int_of_str_of_Z.
  - intros b s rest Hdec Hbad. cbn [msg_count_of]. rewrite Hdec.
    destruct (int_of_str s) as [n|e] eqn:Hint; [exfalso; now apply (Hbad n)|].
    exists e. split; [reflexivity|]. eapply int_of_str_raises; eauto.
Qed.

Lemma msg_count_of_cases_witness :
  msg_count_of Demo.lib [Some (str_of_Z 1234)] = Ret 1234%Z /\
  exists e, msg_count_of Demo.lib [Some "[NONEXISTENT] Unknown Mailbox"]
            = Raise e /\ exn_class e = ValueError.
Proof.
  split.
  - apply (proj1 (proj2 (proj2 (msg_count_of_cases Demo.lib))) 1234%Z []).
    + vm_compute. discriminate.
    + reflexivity.
  - apply (proj2 (proj2 (proj2 (msg_count_of_cases Demo.lib)))
             "[NONEXISTENT] Unknown Mailbox" "[NONEXISTENT] Unknown Mailbox" []).
    + reflexivity.
    + intros n. vm_compute. discriminate.
Defined.

(** ** Message scanner *)

Section ScanMore.

Context {St : Type} `{Collaborator St}.
Variable lib : Library.


Lemma scan_rep_no_tuple (rep : list fetch_item) (min_t : option datetime) :
  first_tuple rep = None -> scan_rep lib rep min_t = Ret Fallthrough.
Proof.
  induction rep as [|x rest IH]; [reflexivity|].
  destruct x; cbn; [discriminate | exact IH | exact IH].
Qed.


(** What a message that ends the scan with a result is like. *)
Lemma scan_message_result (raw : string) (min_t : option datetime)
    (r : EmailCodeResult) :
  scan_message lib raw min_t = Ret (Returned (Some r)) ->
  let msg := message_from_bytes lib raw in
  let msg_subj := lower (msg_get_or msg "Subject" "") in
  (exists msg_time, message_time lib msg = Ret msg_time /\
                    older_than min_t msg_time = Ret false) /\
  contains "info@x.com" (lower (msg_get_or msg "From" "")) = true /\
  contains "confirmation code is" msg_subj = true /\
  _extract_username lib msg = Ret (username r) /\
  code r = strip (default "" (last (split " " msg_subj))).
Proof.
  intros Hrun msg msg_subj. subst msg_subj msg.
  unfold scan_message in Hrun.
  set (msg := message_from_bytes lib raw) in *.
  set (msg_subj := lower (msg_get_or msg "Subject" "")) in *.
  destruct (message_time lib msg) as [msg_time|e]; [|discriminate].
  destruct (older_than min_t msg_time) as [[|]|e] eqn:Hold; try discriminate.
  unfold is_confirmation in Hrun.
  destruct (contains "info@x.com" (lower (msg_get_or msg "From" "")));
    [|discriminate].
  destruct (contains "confirmation code is" msg_subj); [|discriminate].
  cbn [andb] in Hrun.
  destruct (_extract_username lib msg) as [user|e]; [|discriminate].
  unfold code_of_subject, index_last in Hrun.
  destruct (split_last_some " " msg_subj) as [piece Hpiece].
  rewrite Hpiece in *. injection Hrun as <-. cbn.
  repeat split; eauto.
Qed.

Lemma scan_rep_result (rep : list fetch_item) (min_t : option datetime)
    (r : EmailCodeResult) :
  scan_rep lib rep min_t = Ret (Returned (Some r)) ->
  exists envelope raw,
    In (ItemTuple envelope raw) rep /\
    scan_message lib raw min_t = Ret (Returned (Some r)).
Proof.
  induction rep as [|x rest IH]; [discriminate|].
  destruct x as [envelope raw| |]; cbn [scan_rep].
  - destruct (scan_message lib raw min_t) as [[|res]|e] eqn:Hmsg.
    + intros Hrest. destruct (IH Hrest) as (env' & raw' & Hin & Hres).
      exists env', raw'. split; [now right | exact Hres].
    + intros [= ->]. exists envelope, raw. split; [now left | exact Hmsg].
    + discriminate.
  - intros Hrest. destruct (IH Hrest) as (env' & raw' & Hin & Hres).
    exists env', raw'. split; [now right | exact Hres].
  - intros Hrest. destruct (IH Hrest) as (env' & raw' & Hin & Hres).
    exists env', raw'. split; [now right | exact Hres].
Qed.

End ScanMore.



(** X6: a result of the scanner always comes out of a message that the
    scan fetched: that message parses, is not older than the cutoff, has
    the confirmation sender in its sender header and the confirmation
    phrase in its subject (both in lower case), and the code and the
    handle of the result are read off it.  No result comes from anything
    else. *)
Theorem wait_email_code_result_origin
    {St : Type} `{Collaborator St} (lib : Library) (count : Z)
    (min_t : option datetime) (w w' : World St) (r : EmailCodeResult) :
  _wait_email_code lib count min_t w = (Ret (Some r), w') ->
  exists (i : nat) (wi : World St) (typ envelope raw : string)
         (rep : list fetch_item) (msg_time : datetime),
    1 <= i <= Z.to_nat count /\
    scan_passes lib min_t (Z.to_nat count) w i wi /\
    imap_fetch (str_of_nat i) "(RFC822)" wi = (Ret (typ, rep), w') /\
    In (ItemTuple envelope raw) rep /\
    let msg := message_from_bytes lib raw in
    let msg_subj := lower (msg_get_or msg "Subject" "") in
    message_time lib msg = Ret msg_time /\
    older_than min_t msg_time = Ret false /\
    contains "info@x.com" (lower (msg_get_or msg "From" "")) = true /\
    contains "confirmation code is" msg_subj = true /\
    _extract_username lib msg = Ret (username r) /\
    code r = strip (default "" (last (split " " msg_subj))).
Proof.
  unfold _wait_email_code. generalize (Z.to_nat count) as n. clear count.
  intros n. revert w. induction n as [|n IH]; intros w Hrun.
  - discriminate.
  - rewrite scan_from_S in Hrun.
    destruct (imap_fetch (str_of_nat (S n)) "(RFC822)" w)
      as [[[typ rep]|e] w1] eqn:Hfetch; [|discriminate].
    destruct (scan_rep lib rep min_t) as [[|res]|e] eqn:Hrep;
      [| |discriminate].
    + destruct (IH w1 Hrun)
        as (i & wi & typ' & env & raw & rep' & t & Hi & Hpass & Hrest).
      exists i, wi, typ', env, raw, rep', t.
      split; [lia|]. split; [|exact Hrest].
      eapply passes_next; eauto.
    + injection Hrun as -> ->.
      destruct (scan_rep_result lib rep min_t r Hrep)
        as (env & raw & Hin & Hmsg).
      destruct (scan_message_result lib raw min_t r Hmsg)
        as ((t & Htime & Hold) & Hfrom & Hsubj & Huser & Hcode).
      exists (S n), w, typ, env, raw, rep, t.
      split; [lia|]. split; [apply passes_none|].
      repeat split; auto.
Qed.

Lemma wait_email_code_result_origin_witness :
  let w := Demo.start ["raw:old_code"; "raw:new_code"; "raw:late_news"] [] in
  exists (i : nat) (raw : string),
    1 <= i <= 3 /\
    contains "info@x.com"
      (lower (msg_get_or (message_from_bytes Demo.lib raw) "From" "")) = true.
Proof.
  intros w.
  assert (Hrun : _wait_email_code Demo.lib 3 None w
                 = (Ret (Some {| code := "482917"; username := None |}),
                    {| conn := conn w;
                       calls := [fetch_call 3; fetch_call 2] |}))
    by reflexivity.
  pose proof (wait_email_code_result_origin Demo.lib 3 None w _ _ Hrun)
    as (i & wi & typ & env & raw & rep & t & Hi & _ & _ & _ & Hmsg).
  exists i, raw. split; [exact Hi|]. apply Hmsg.
Defined.

(** X7: a FETCH answer that holds no tuple (the answer [[None]] for a
    message number that is not there, or bare bytes) is passed over
    without parsing anything: the scan goes on with the next lower
    number. *)
Theorem wait_email_code_skips_answer_without_tuple
    {St : Type} `{Collaborator St} (lib : Library) (i : nat)
    (min_t : option datetime) (w w1 : World St) (typ : string)
    (rep : list fetch_item) :
  imap_fetch (str_of_nat (S i)) "(RFC822)" w = (Ret (typ, rep), w1) ->
  first_tuple rep = None ->
  _wait_email_code lib (Z.of_nat (S i)) min_t w
  = _wait_email_code lib (Z.of_nat i) min_t w1.
Proof.
  intros Hfetch Hnone. unfold _wait_email_code. rewrite !Nat2Z.id.
  rewrite scan_from_S, Hfetch.
  now rewrite (scan_rep_no_tuple lib rep min_t Hnone).
Qed.

Lemma wait_email_code_skips_answer_without_tuple_witness :
  let w := Demo.start ["raw:new_code"] [] in
  _wait_email_code Demo.lib 2 None w
  = _wait_email_code Demo.lib 1 None
      {| conn := conn w; calls := [fetch_call 2] |}.
Proof.
  intros w.
  apply (wait_email_code_skips_answer_without_tuple Demo.lib 1 None w
           {| conn := conn w; calls := [fetch_call 2] |} "OK" [ItemNone]);
    reflexivity.
Defined.

(** ** The handle in the body *)

Lemma append_assoc_str (a b c : string) :
  ((a ++ b) ++ c)%string = (a ++ b ++ c)%string.
Proof.
  induction a as [|x a IH]; [reflexivity|].
  now rewrite !append_cons, IH.
Qed.

Lemma startswith_drop (p s : string) :
  startswith p s = true ->
  s = (p ++ drop_chars (String.length p) s)%string.
Proof.
  revert s. induction p as [|a p IH]; intros s; [reflexivity|].
  destruct s as [|b s]; [discriminate|]. cbn [startswith].
  intros Hs. apply andb_true_iff in Hs as [Hab Hrest].
  apply Ascii.eqb_eq in Hab. subst b.
  cbn [String.length drop_chars]. rewrite append_cons.
  f_equal. now apply IH.
Qed.

Lemma startswith_append (p r : string) : startswith p (p ++ r) = true.
Proof.
  induction p as [|a p IH]; [reflexivity|].
  rewrite append_cons. cbn [startswith].
  now rewrite Ascii.eqb_refl, IH.
Qed.

Lemma drop_chars_append (p r : string) :
  drop_chars (String.length p) (p ++ r) = r.
Proof.
  induction p as [|a p IH]; [reflexivity|].
  rewrite append_cons. exact IH.
Qed.

Lemma take_while_word (s : string) :
  exists after,
    s = (take_while is_word s ++ after)%string /\
    all_word (take_while is_word s) = true /\
    word_ends after = true.
Proof.
  induction s as [|c r (after & Hs & Hall & Hend)].
  - exists EmptyString. repeat split.
  - cbn [take_while]. destruct (is_word c) eqn:Hc.
    + exists after. rewrite append_cons. cbn [all_word].
      rewrite Hc, Hall. repeat split; [now f_equal | exact Hend].
    + exists (String c r). cbn. now rewrite Hc.
Qed.

(** One step of the search. *)
Lemma re_search_username_step (body : string) :
  re_search_username body =
    match (if startswith handle_prefix body
           then match take_while is_word
                        (drop_chars (String.length handle_prefix) body) with
                | EmptyString => None
                | w => Some w
                end
           else None) with
    | Some w => Some w
    | None =>
        match body with
        | EmptyString => None
        | String _ rest => re_search_username rest
        end
    end.
Proof. destruct body; reflexivity. Qed.

(** X8: a handle that the search gives is not empty, is made of word
    characters only, stands in the body right after the text
    ["to log in to your account @"], and ends where the word characters
    end. *)
Theorem re_search_username_sound (body handle : string) :
  re_search_username body = Some handle ->
  handle <> EmptyString /\
  all_word handle = true /\
  exists before after,
    body = (before ++ handle_prefix ++ handle ++ after)%string /\
    word_ends after = true.
Proof.
  induction body as [|c rest IH]; rewrite re_search_username_step.
  - discriminate.
  - destruct (startswith handle_prefix (String c rest)) eqn:Hstart.
    + destruct (take_while_word
                  (drop_chars (String.length handle_prefix) (String c rest)))
        as (after & Hsplit & Hall & Hend).
      destruct (take_while is_word
                  (drop_chars (String.length handle_prefix) (String c rest)))
        as [|a w] eqn:Hw.
      * intros Hrest. destruct (IH Hrest) as (Hne & Hword & b & a & -> & Ha).
        repeat split; auto. exists (String c b), a. now rewrite append_cons.
      * intros [= <-]. split; [discriminate|]. split; [exact Hall|].
        exists EmptyString, after. split; [|exact Hend].
        rewrite append_nil, <- Hsplit. now apply startswith_drop.
    + intros Hrest. destruct (IH Hrest) as (Hne & Hword & b & a & -> & Ha).
      repeat split; auto. exists (String c b), a. now rewrite append_cons.
Qed.

Lemma re_search_username_sound_witness :
  "exampleUser" <> EmptyString /\
  all_word "exampleUser" = true /\
  exists before after,
    "Hi. We noticed an attempt to log in to your account @exampleUser that seems suspicious."
    = (before ++ handle_prefix ++ "exampleUser" ++ after)%string /\
    word_ends after = true.
Proof.
  apply (re_search_username_sound
           "Hi. We noticed an attempt to log in to your account @exampleUser that seems suspicious.").
  reflexivity.
Defined.

(** X9: the search gives no handle exactly when no occurrence of
    ["to log in to your account @"] in the body is followed by a word
    character. *)
Theorem re_search_username_none (body : string) :
  re_search_username body = None <->
  (forall before after,
      body = (before ++ handle_prefix ++ after)%string ->
      take_while is_word after = EmptyString).
Proof.
  induction body as [|c rest IH]; rewrite re_search_username_step.
  - split; [|reflexivity]. intros _ before after Hbody.
    destruct before; discriminate.
  - split.
    + intros Hnone before after Hbody.
      destruct before as [|b before].
      * rewrite append_nil in Hbody. rewrite Hbody in Hnone.
        rewrite startswith_append, drop_chars_append in Hnone.
        destruct (take_while is_word after); [reflexivity | discriminate].
      * rewrite append_cons in Hbody. injection Hbody as _ Hrest.
        destruct (if startswith handle_prefix (String c rest) then _ else _);
          [discriminate|].
        apply (proj1 IH Hnone before after Hrest).
    + intros Hall.
      assert (Hhere : (if startswith handle_prefix (String c rest)
                       then match take_while is_word
                                    (drop_chars (String.length handle_prefix)
                                                (String c rest)) with
                            | EmptyString => None
                            | w => Some w
                            end
                       else None) = None).
      { destruct (startswith handle_prefix (String c rest)) eqn:Hstart;
          [|reflexivity].
        apply startswith_drop in Hstart.
        now rewrite (Hall EmptyString _ Hstart). }
      rewrite Hhere. apply (proj2 IH).
      intros before after Hrest. apply (Hall (String c before) after).
      now rewrite append_cons, Hrest.
Qed.

Lemma re_search_username_none_witness :
  take_while is_word " (no name given)" = EmptyString.
Proof.
  apply (proj1 (re_search_username_none
                  "An attempt to log in to your account @ (no name given)")
           ltac:(reflexivity) "An attempt " " (no name given)").
  reflexivity.
Defined.

Section ExtractMore.

Variable lib : Library.

(** The loop over the parts stops at the first part that passes the test
    and does not decode. *)
Lemma walk_body_raises (before after : list Message) (part : Message)
    (body : string) (e : exn) :
  Forall (fun p => exists b, decoded_payload lib p = Ret b)
         (List.filter plain_text_part before) ->
  plain_text_part part = true ->
  decoded_payload lib part = Raise e ->
  walk_body lib (before ++ part :: after) body = Raise e.
Proof.
  revert body. induction before as [|p before IH]; intros body Hdec Hpart Hraise.
  - cbn [app walk_body]. now rewrite Hpart, Hraise.
  - cbn [app walk_body List.filter] in *.
    destruct (plain_text_part p); [|now apply IH].
    inversion Hdec as [|? ? [b Hb] Hrest]; subst.
    rewrite Hb. now apply IH.
Qed.

End ExtractMore.

(** X10: in a multipart message, the first part of the walk that passes
    the test of the loop (content type ["text/plain"], and no
    ["attachment"] in the text of its [Content-Disposition] header, letter
    case observed) and whose payload does not decode makes the handle
    extraction raise that decoding error, whatever the parts after it
    hold. *)
Theorem extract_username_decode_error (lib : Library) (msg part : Message)
    (before after : list Message) (e : exn) :
  is_multipart msg = true ->
  walk msg = before ++ part :: after ->
  Forall (fun p => exists b, decoded_payload lib p = Ret b)
         (List.filter plain_text_part before) ->
  plain_text_part part = true ->
  decoded_payload lib part = Raise e ->
  _extract_username lib msg = Raise e.
Proof.
  intros Hmulti Hwalk Hdec Hpart Hraise. unfold _extract_username.
  now rewrite Hmulti, Hwalk, (walk_body_raises lib _ _ _ _ e Hdec Hpart Hraise).
Qed.

Lemma extract_username_decode_error_witness :
  let bad := Leaf [] "text/plain" (String (ascii_of_N 255) "") in
  let good := Leaf [] "text/plain" "to log in to your account @someone" in
  let msg := Multipart [] "multipart/alternative" [bad; good] in
  _extract_username Demo.lib msg
  = Raise (Exc UnicodeDecodeError "'utf-8' codec can't decode byte").
Proof.
  intros bad good msg.
  apply (extract_username_decode_error Demo.lib msg bad [msg] [good]).
  - reflexivity.
  - reflexivity.
  - constructor.
  - reflexivity.
  - reflexivity.
Defined.

(** X11: for a multipart message the handle depends on nothing but the
    parts of its walk that pass the test of the loop (content type
    ["text/plain"], and no ["attachment"] in the text of the
    [Content-Disposition] header, letter case observed), in their order:
    two multipart messages with the same such parts give the same handle
    or the same error.  No other part is decoded or searched. *)
Theorem extract_username_depends_on_plain_parts (lib : Library)
    (msg1 msg2 : Message) :
  is_multipart msg1 = true ->
  is_multipart msg2 = true ->
  List.filter plain_text_part (walk msg1)
  = List.filter plain_text_part (walk msg2) ->
  _extract_username lib msg1 = _extract_username lib msg2.
Proof.
  intros Hm1 Hm2 Hsame. unfold _extract_username. rewrite Hm1, Hm2.
  assert (Hfilter : forall parts body,
             walk_body lib parts body
             = walk_body lib (List.filter plain_text_part parts) body).
  { induction parts as [|p ps IH]; intros body; [reflexivity|].
    cbn [walk_body List.filter].
    destruct (plain_text_part p) eqn:Hp; [|apply IH].
    cbn [walk_body]. rewrite Hp.
    destruct (decoded_payload lib p); [apply IH | reflexivity]. }
  now rewrite (Hfilter (walk msg1)), (Hfilter (walk msg2)), Hsame.
Qed.

Lemma extract_username_depends_on_plain_parts_witness :
  let plain := Leaf [] "text/plain" "to log in to your account @plainUser" in
  let html := Leaf [] "text/html" "<p>to log in to your account @htmlUser</p>" in
  let file := Leaf [("Content-Disposition", "attachment; filename=a.txt")]
                   "text/plain" "to log in to your account @fileUser" in
  _extract_username Demo.lib
    (Multipart [] "multipart/mixed" [html; plain; file])
  = _extract_username Demo.lib (Multipart [] "multipart/alternative" [plain]).
Proof.
  intros plain html file.
  apply (extract_username_depends_on_plain_parts Demo.lib); reflexivity.
Defined.

(** ** Poll loop *)

Lemma forallb_fetch_calls (hi n : nat) :
  forallb poll_call (fetch_calls hi n) = true.
Proof.
  revert hi. induction n as [|n IH]; intros hi; [reflexivity|].
  cbn [fetch_calls forallb]. now rewrite IH.
Qed.

Section PollMore.

Context {St : Type} `{Collaborator St}.
Variable lib : Library.
Variable timeout : Z.

Lemma only_calls_refl (P : call -> bool) (w : World St) : only_calls P w w.
Proof. exists []. now rewrite app_nil_r. Qed.

Lemma only_calls_trans (P : call -> bool) (w1 w2 w3 : World St) :
  only_calls P w1 w2 -> only_calls P w2 w3 -> only_calls P w1 w3.
Proof.
  intros (n1 & H1 & P1) (n2 & H2 & P2). exists (n1 ++ n2).
  rewrite H2, H1, <- app_assoc, forallb_app, P1, P2. auto.
Qed.

Lemma only_calls_invoke {A} (P : call -> bool) (c : call)
    (op : St -> outcome A * St) (w w' : World St) (r : outcome A) :
  P c = true -> invoke c op w = (r, w') -> only_calls P w w'.
Proof.
  intros HP Hrun. apply invoke_calls in Hrun. exists [c].
  cbn. now rewrite HP.
Qed.

Lemma poll_turn_only_calls (min_t : option datetime) (start_time : Q)
    (w w' : World St) (out : outcome (flow EmailCodeResult)) :
  poll_turn lib timeout min_t start_time w = (out, w') ->
  only_calls poll_call w w'.
Proof.
  unfold poll_turn, bind, lift, ret, raise.
  destruct (imap_select "INBOX" false w) as [[[typ rep]|e] w1] eqn:Hsel;
    apply (only_calls_invoke poll_call) in Hsel; try reflexivity;
    [|intros [= _ <-]; exact Hsel].
  destruct (msg_count_of lib rep) as [msg_count|e];
    [|intros [= _ <-]; exact Hsel].
  destruct (_wait_email_code lib msg_count min_t w1) as [scan w2] eqn:Hscan.
  assert (Hw2 : only_calls poll_call w w2).
  { apply (only_calls_trans _ _ _ _ Hsel).
    apply scan_from_calls in Hscan as (n & _ & Hcalls).
    exists (fetch_calls (Z.to_nat msg_count) n).
    split; [exact Hcalls | apply forallb_fetch_calls]. }
  destruct scan as [[r|]|e]; try (intros [= _ <-]; exact Hw2).
  destruct (time_time w2) as [[now|e] w3] eqn:Htime;
    unfold time_time in Htime;
    apply (only_calls_invoke poll_call) in Htime; try reflexivity;
    pose proof (only_calls_trans _ _ _ _ Hw2 Htime) as Hw3;
    [|intros [= _ <-]; exact Hw3].
  destruct (Qlt_b (inject_Z timeout) (now - start_time));
    [intros [= _ <-]; exact Hw3|].
  destruct (asyncio_sleep 5 w3) as [[[]|e] w4] eqn:Hsleep;
    apply (only_calls_invoke poll_call) in Hsleep; try reflexivity;
    intros [= _ <-]; exact (only_calls_trans _ _ _ _ Hw3 Hsleep).
Qed.

Lemma poll_loop_only_calls (fuel : nat) (min_t : option datetime)
    (start_time : Q) (w w' : World St) (out : outcome EmailCodeResult) :
  poll_loop lib timeout fuel min_t start_time w = Some (out, w') ->
  only_calls poll_call w w'.
Proof.
  revert w. induction fuel as [|fuel IH]; intros w; cbn [poll_loop];
    [discriminate|].
  destruct (poll_turn lib timeout min_t start_time w) as [[[|r]|e] w1] eqn:Hturn;
    apply poll_turn_only_calls in Hturn.
  - intros Hrun. apply IH in Hrun. exact (only_calls_trans _ _ _ _ Hturn Hrun).
  - intros [= _ <-]. exact Hturn.
  - intros [= _ <-]. exact Hturn.
Qed.

End PollMore.

(** X12: whatever comes of it, the poll operation only reads the clock,
    selects [INBOX] (not read-only), fetches with [(RFC822)], sleeps for
    5, and closes: it never connects or logs in again, never selects
    another mailbox, never sleeps for another delay. *)
Theorem poll_makes_only_poll_calls
    {St : Type} `{Collaborator St} (lib : Library) (timeout : Z)
    (fuel : nat) (email : string) (min_t : option datetime)
    (w w' : World St) (out : outcome EmailCodeResult) :
  imap_get_email_code lib timeout fuel email min_t w = Some (out, w') ->
  exists new, calls w' = calls w ++ new /\ forallb poll_call new = true.
Proof.
  unfold imap_get_email_code, poll_body.
  destruct (time_time w) as [[start_time|e] w1] eqn:Htime;
    unfold time_time in Htime;
    apply (only_calls_invoke poll_call) in Htime; try reflexivity.
  - destruct (poll_loop lib timeout fuel min_t start_time w1)
      as [[[r|e] w2]|] eqn:Hloop; [| |discriminate];
      apply poll_loop_only_calls in Hloop;
      pose proof (only_calls_trans _ _ _ _ Htime Hloop) as Hw2.
    + intros [= _ <-]. exact Hw2.
    + destruct (is_Exception (exn_class e)); [|intros [= _ <-]; exact Hw2].
      unfold poll_handler, bind, raise.
      destruct (imap_select "INBOX" false w2) as [[[typ rep]|e2] w3] eqn:Hsel;
        apply (only_calls_invoke poll_call) in Hsel; try reflexivity;
        pose proof (only_calls_trans _ _ _ _ Hw2 Hsel) as Hw3;
        [|intros [= _ <-]; exact Hw3].
      destruct (imap_close w3) as [[[]|e3] w4] eqn:Hclose;
        apply (only_calls_invoke poll_call) in Hclose; try reflexivity;
        intros [= _ <-]; exact (only_calls_trans _ _ _ _ Hw3 Hclose).
  - destruct (is_Exception (exn_class e)); [|intros [= _ <-]; exact Htime].
    unfold poll_handler, bind, raise.
    destruct (imap_select "INBOX" false w1) as [[[typ rep]|e2] w3] eqn:Hsel;
      apply (only_calls_invoke poll_call) in Hsel; try reflexivity;
      pose proof (only_calls_trans _ _ _ _ Htime Hsel) as Hw3;
      [|intros [= _ <-]; exact Hw3].
    destruct (imap_close w3) as [[[]|e3] w4] eqn:Hclose;
      apply (only_calls_invoke poll_call) in Hclose; try reflexivity;
      intros [= _ <-]; exact (only_calls_trans _ _ _ _ Hw3 Hclose).
Qed.

Lemma poll_makes_only_poll_calls_witness :
  let w := Demo.start [] ["raw:new_code"] in
  let w' := {| conn := Demo.inbox_sleep 5 (conn w);
               calls := [CallTime; CallSelect "INBOX" false; CallTime;
                         CallSleep 5; CallSelect "INBOX" false;
                         fetch_call 1] |} in
  exists new, calls w' = calls w ++ new /\ forallb poll_call new = true.
Proof.
  intros w w'.
  apply (poll_makes_only_poll_calls Demo.lib 30 5 "user@example.com" None
           w w' (Ret {| code := "482917"; username := None |})).
  reflexivity.
Defined.

(** X13: a failing cleanup hides the failure it cleans up after.  When
    the loop has left by an exception of class [Exception] and the
    [select] of the handler raises, that second exception is what the
    caller gets and the session is not closed; when the [select] returns
    and the [close] raises, the caller gets the exception of the
    [close]. *)
Theorem poll_cleanup_failure
    {St : Type} `{Collaborator St} (lib : Library) (timeout : Z)
    (fuel : nat) (email : string) (min_t : option datetime)
    (w w1 : World St) (e : exn) :
  poll_body lib timeout fuel min_t w = Some (Raise e, w1) ->
  is_Exception (exn_class e) = true ->
  (forall (e2 : exn) (s2 : St),
      select "INBOX" false (conn w1) = (Raise e2, s2) ->
      imap_get_email_code lib timeout fuel email min_t w
      = Some (Raise e2,
              {| conn := s2;
                 calls := calls w1 ++ [CallSelect "INBOX" false] |}) /\
      closes (calls w1 ++ [CallSelect "INBOX" false]) = closes (calls w)) /\
  (forall (typ : string) (rep : list (option string)) (e3 : exn) (s2 s3 : St),
      select "INBOX" false (conn w1) = (Ret (typ, rep), s2) ->
      close s2 = (Raise e3, s3) ->
      imap_get_email_code lib timeout fuel email min_t w
      = Some (Raise e3,
              {| conn := s3;
                 calls := calls w1 ++ [CallSelect "INBOX" false; CallClose] |})).
Proof.
  intros Hbody Hexc.
  pose proof (poll_body_closes _ _ _ _ _ _ _ Hbody) as Hsame.
  unfold imap_get_email_code. rewrite Hbody, Hexc.
  unfold poll_handler, bind, raise, imap_select, imap_close, invoke.
  split.
  - intros e2 s2 Hsel. rewrite Hsel. split; [reflexivity|].
    rewrite closes_app, Hsame. cbn. lia.
  - intros typ rep e3 s2 s3 Hsel Hclose. rewrite Hsel. cbn [conn calls].
    rewrite Hclose. now rewrite <- app_assoc.
Qed.

Lemma poll_cleanup_failure_witness :
  let w := Flaky.start 0 in
  let w1 := {| conn := conn w;
               calls := [CallTime; CallSelect "INBOX" false] |} in
  imap_get_email_code Demo.lib 30 5 "user@example.com" None w
  = Some (Raise Flaky.dropped,
          {| conn := conn w;
             calls := calls w1 ++ [CallSelect "INBOX" false] |}) /\
  closes (calls w1 ++ [CallSelect "INBOX" false]) = closes (calls w).
Proof.
  intros w w1.
  assert (Hbody : poll_body Demo.lib 30 5 None w
                  = Some (Raise Flaky.dropped, w1)) by reflexivity.
  assert (Hexc : is_Exception (exn_class Flaky.dropped) = true)
    by reflexivity.
  assert (Hsel : select "INBOX" false (conn w1)
                 = (Raise Flaky.dropped, conn w)) by reflexivity.
  exact (proj1 (poll_cleanup_failure Demo.lib 30 5 "user@example.com" None
                  w w1 Flaky.dropped Hbody Hexc)
           Flaky.dropped (conn w) Hsel).
Defined.

Section SteadyFacts.

Context {St : Type} `{Collaborator St}.
Variable lib : Library.
Variable timeout : Z.
Variable min_t : option datetime.
Variable Inv : St -> Prop.
Hypothesis Hsteady : steady lib min_t Inv.

Lemma steady_scan (i : nat) (w : World St) :
  Inv (conn w) ->
  exists w', scan_from lib i min_t w = (Ret None, w') /\
             Inv (conn w') /\ (reading (conn w) <= reading (conn w'))%Q.
Proof.
  destruct Hsteady as (_ & _ & Hfetch & _).
  revert w. induction i as [|i IH]; intros w Hinv.
  - exists w. repeat split; [exact Hinv | apply Qle_refl].
  - rewrite scan_from_S.
    destruct (Hfetch (conn w) (S i) Hinv)
      as (typ & rep & s' & Hf & Hrep & Hinv' & Hle).
    unfold imap_fetch, invoke. rewrite Hf.
    destruct Hrep as [-> | ->].
    + destruct (IH {| conn := s'; calls := calls w ++ [fetch_call (S i)] |}
                   Hinv') as (w' & Hrun & Hinv'' & Hle').
      exists w'. repeat split; auto. cbn [conn] in Hle'.
      eapply Qle_trans; eauto.
    + eexists. repeat split; [exact Hinv' | exact Hle].
Qed.

Lemma Qlt_b_false_inv (a b : Q) : Qlt_b a b = false -> (b <= a)%Q.
Proof.
  unfold Qlt_b. intros Hb. apply negb_false_iff in Hb.
  now apply Qle_bool_iff.
Qed.

(** From a state in which [k] more sleeps are sure to take the clock past
    the deadline, the loop ends with the timeout error within [k + 1]
    turns. *)
Lemma steady_loop (start_time : Q) (k : nat) :
  forall (w : World St),
    Inv (conn w) ->
    (inject_Z timeout
     < reading (conn w) - start_time + inject_Z (5 * Z.of_nat k))%Q ->
    forall fuel, k < fuel ->
    exists w',
      poll_loop lib timeout fuel min_t start_time w
      = Some (Raise (Exc EmailCodeTimeoutError (timeout_message timeout)), w') /\
      Inv (conn w').
Proof.
  destruct Hsteady as (Htime & Hselect & _ & Hsleep & _).
  induction k as [|k IH]; intros w Hinv Hbound fuel Hfuel;
    (destruct fuel as [|fuel]; [lia|]); cbn [poll_loop];
    unfold poll_turn, bind, lift, ret, raise;
    destruct (Hselect (conn w) Hinv)
      as (typ & rep & n & s1 & Hsel & Hcount & Hinv1 & Hle1);
    unfold imap_select, invoke at 1; rewrite Hsel, Hcount;
    unfold _wait_email_code;
    destruct (steady_scan (Z.to_nat n)
                {| conn := s1; calls := calls w ++ [CallSelect "INBOX" false] |}
                Hinv1) as (w2 & Hscan & Hinv2 & Hle2);
    rewrite Hscan; cbn [conn] in Hle2;
    destruct (Htime (conn w2) Hinv2) as [Hinv3 Hle3];
    assert (Hread : reading (conn w2) = fst (time (conn w2))) by reflexivity;
    unfold time_time, invoke at 1;
    destruct (time (conn w2)) as [t s3];
    cbn [fst snd] in *;
    destruct (Qlt_b (inject_Z timeout) (t - start_time)) eqn:Hlate;
    try (eexists; split; [reflexivity | exact Hinv3]);
    apply Qlt_b_false_inv in Hlate.
  - exfalso.
    change (inject_Z (5 * Z.of_nat 0)) with 0%Q in Hbound.
    rewrite Hread in *. lra.
  - destruct (Hsleep s3 Hinv3) as (s4 & Hsl & Hinv4 & Hle4).
    unfold asyncio_sleep, invoke at 1. cbn [conn calls]. rewrite Hsl.
    apply IH; [exact Hinv4 | | lia]. cbn [conn].
    assert (Hk : (inject_Z (5 * Z.of_nat (S k))
                  == inject_Z (5 * Z.of_nat k) + 5)%Q).
    { replace (5 * Z.of_nat (S k))%Z with (5 * Z.of_nat k + 5)%Z by lia.
      now rewrite inject_Z_plus. }
    rewrite Hk in Hbound. rewrite Hread in *. lra.
Qed.

End SteadyFacts.
(** X14: the poll operation ends.  With collaborators that stay in
    states in which every command returns, every SELECT answer parses as a
    count, every FETCH answer scans without raising and without a
    confirmation, the clock never goes back and is at least 5 further
    after each sleep of 5, the loop raises the timeout error within
    [timeout / 5 + 2] turns; the handler then selects the inbox and closes
    the session, the only close of the operation, and that error reaches
    the caller. *)
Theorem poll_ends_with_timeout
    {St : Type} `{Collaborator St} (lib : Library) (timeout : Z)
    (email : string) (min_t : option datetime) (Inv : St -> Prop)
    (w : World St) :
  steady lib min_t Inv ->
  Inv (conn w) ->
  forall fuel, Z.to_nat (timeout / 5) + 1 < fuel ->
  exists (w2 : World St) (typ : string) (rep : list (option string))
         (s3 s4 : St),
    poll_body lib timeout fuel min_t w
    = Some (Raise (Exc EmailCodeTimeoutError
                     ("Email code timeout (" ++ str_of_Z timeout ++ " sec)")),
            w2) /\
    select "INBOX" false (conn w2) = (Ret (typ, rep), s3) /\
    close s3 = (Ret tt, s4) /\
    imap_get_email_code lib timeout fuel email min_t w
    = Some (Raise (Exc EmailCodeTimeoutError
                     ("Email code timeout (" ++ str_of_Z timeout ++ " sec)")),
            {| conn := s4;
               calls := calls w2 ++ [CallSelect "INBOX" false; CallClose] |}) /\
    closes (calls w2) = closes (calls w).
Proof.
  intros Hsteady Hinv fuel Hfuel.
  pose proof Hsteady as (Htime & Hselect & _ & _ & Hclose).
  destruct (Htime (conn w) Hinv) as [Hinv1 Hle1].
  assert (Hstart : time_time w
                   = (Ret (reading (conn w)),
                      {| conn := snd (time (conn w));
                         calls := calls w ++ [CallTime] |})).
  { unfold time_time, invoke, reading. now destruct (time (conn w)). }
  set (w1 := {| conn := snd (time (conn w));
                calls := calls w ++ [CallTime] |}) in *.
  assert (Hbound : (inject_Z timeout
                    < reading (conn w1) - reading (conn w)
                      + inject_Z (5 * Z.of_nat (Z.to_nat (timeout / 5) + 1)))%Q).
  { assert (Hz : (timeout < 5 * Z.of_nat (Z.to_nat (timeout / 5) + 1))%Z).
    { pose proof (Z.mul_succ_div_gt timeout 5 ltac:(lia)). lia. }
    rewrite Zlt_Qlt in Hz. unfold w1. cbn [conn]. lra. }
  destruct (steady_loop lib timeout min_t Inv Hsteady (reading (conn w))
              (Z.to_nat (timeout / 5) + 1) w1 Hinv1 Hbound fuel Hfuel)
    as (w2 & Hloop & Hinv2).
  assert (Hbody : poll_body lib timeout fuel min_t w
                  = Some (Raise (Exc EmailCodeTimeoutError
                                   (timeout_message timeout)), w2)).
  { unfold poll_body. now rewrite Hstart. }
  destruct (Hselect (conn w2) Hinv2)
    as (typ & rep & n & s3 & Hsel & _ & Hinv3 & _).
  destruct (Hclose s3 Hinv3) as (s4 & Hcl).
  exists w2, typ, rep, s3, s4.
  split; [exact Hbody|]. split; [exact Hsel|]. split; [exact Hcl|]. split.
  - unfold imap_get_email_code. rewrite Hbody. cbn [exn_class is_Exception].
    now rewrite (poll_handler_returns _ _ _ _ _ _ Hsel Hcl).
  - exact (poll_body_closes _ _ _ _ _ _ _ Hbody).
Qed.

(** The empty mailbox is steady in every state. *)
Lemma idle_steady : steady (St := Idle.Box) Demo.lib None (fun _ => True).
Proof.
  repeat split.
  - apply Qle_refl.
  - intros s _. exists "OK", [Some "0"], 0%Z, s.
    repeat split. apply Qle_refl.
  - intros s i _. exists "OK", [ItemNone], s.
    repeat split; [now left | apply Qle_refl].
  - intros s _. eexists. repeat split.
    unfold reading. cbn. rewrite Qred_correct. apply Qle_refl.
  - intros s _. eexists. reflexivity.
Qed.

Lemma poll_ends_with_timeout_witness :
  exists (w2 : World Idle.Box) (s4 : Idle.Box),
    imap_get_email_code Demo.lib 12 4 "user@example.com" None Idle.start
    = Some (Raise (Exc EmailCodeTimeoutError
                     ("Email code timeout (" ++ str_of_Z 12 ++ " sec)")),
            {| conn := s4;
               calls := calls w2 ++ [CallSelect "INBOX" false; CallClose] |}) /\
    Idle.is_open s4 = false /\
    closes (calls w2) = closes (calls Idle.start).
Proof.
  destruct (poll_ends_with_timeout Demo.lib 12 "user@example.com" None
              (fun _ => True) Idle.start idle_steady I 4
              ltac:(vm_compute; lia))
    as (w2 & typ & rep & s3 & s4 & _ & _ & Hclose & Hrun & Hcloses).
  exists w2, s4. split; [exact Hrun|]. split; [|exact Hcloses].
  cbn in Hclose. now injection Hclose as <-.
Defined.

(** ** Mailbox session *)

Lemma split_many_contains (sep : ascii) (s a b : string) (rest : list string) :
  split sep s = a :: b :: rest -> contains (String sep EmptyString) s = true.
Proof.
  intros Hs. destruct (contains (String sep EmptyString) s) eqn:Hc;
    [reflexivity|].
  apply split_without in Hc. congruence.
Qed.

(** X15: for an address without ["@"], [imap_login] raises [IndexError]
    before it calls anything: no connection is made. *)
Theorem imap_login_without_at
    {St : Type} `{Collaborator St} (mapping : gmap string string)
    (email password : string) (w : World St) :
  contains "@" email = false ->
  imap_login mapping email password w
  = (Raise (Exc IndexError "list index out of range"), w).
Proof.
  intros Hno. unfold imap_login, bind, lift.
  destruct (split_address email) as [[_ Hs] | (l & d & r & Hat & _)];
    [|congruence].
  unfold _get_imap_domain. now rewrite Hs.
Qed.

Lemma imap_login_without_at_witness :
  imap_login IMAP_MAPPING "nobody" "secret" (Demo.start [] [])
  = (Raise (Exc IndexError "list index out of range"), Demo.start [] []).
Proof.
  apply (imap_login_without_at IMAP_MAPPING "nobody" "secret"). reflexivity.
Defined.

(** X16: an endpoint with more than one colon (an IPv6 literal with a
    port, say) makes [imap_login] raise [ValueError] at the unpacking of
    host and port, again before any call. *)
Theorem imap_login_endpoint_with_colons
    {St : Type} `{Collaborator St} (mapping : gmap string string)
    (email password domain a b c : string) (rest : list string)
    (w : World St) :
  _get_imap_domain email mapping = Ret domain ->
  split ":" domain = a :: b :: c :: rest ->
  imap_login mapping email password w
  = (Raise (Exc ValueError "too many values to unpack (expected 2)"), w).
Proof.
  intros Hdomain Hsplit. unfold imap_login. unfold bind at 1, lift.
  rewrite Hdomain, (split_many_contains _ _ _ _ _ Hsplit), Hsplit.
  reflexivity.
Qed.

Lemma imap_login_endpoint_with_colons_witness :
  imap_login (add_imap_mapping "example.com" "[::1]:993" IMAP_MAPPING)
    "user@example.com" "secret" (Demo.start [] [])
  = (Raise (Exc ValueError "too many values to unpack (expected 2)"),
     Demo.start [] []).
Proof.
  apply (imap_login_endpoint_with_colons
           (add_imap_mapping "example.com" "[::1]:993" IMAP_MAPPING)
           "user@example.com" "secret" "[::1]:993" "[" "" "1]" ["993"]);
    vm_compute; reflexivity.
Defined.

(** X17: a connection that cannot be made is not a login error: the
    exception of the connection reaches the caller as it is, of whatever
    class, and no login is attempted. *)
Theorem imap_login_connection_failure
    {St : Type} `{Collaborator St} (mapping : gmap string string)
    (email password domain : string) (imap : session)
    (w : World St) (s1 : St) (e : exn) :
  _get_imap_domain email mapping = Ret domain ->
  session_for domain imap ->
  connect imap (conn w) = (Raise e, s1) ->
  imap_login mapping email password w
  = (Raise e, {| conn := s1; calls := calls w ++ [CallConnect imap] |}).
Proof.
  intros Hdomain Hsession Hconnect.
  unfold imap_login. unfold bind at 1, lift. rewrite Hdomain.
  destruct Hsession as [host port Hsplit | Hplain].
  - rewrite (split_two_contains _ _ _ _ Hsplit), Hsplit.
    unfold bind at 1. unfold bind at 1, lift, unpack2.
    unfold bind at 1, imap_connect, invoke. now rewrite Hconnect.
  - rewrite Hplain.
    unfold bind at 1. unfold bind at 1, imap_connect, invoke.
    now rewrite Hconnect.
Qed.

Lemma imap_login_connection_failure_witness :
  imap_login IMAP_MAPPING "user@icloud.com" "secret" (Flaky.start 0)
  = (Raise Flaky.dropped,
     {| conn := conn (Flaky.start 0);
        calls := [CallConnect (IMAP4_SSL "imap.mail.me.com")] |}).
Proof.
  apply (imap_login_connection_failure IMAP_MAPPING "user@icloud.com"
           "secret" "imap.mail.me.com" (IMAP4_SSL "imap.mail.me.com")
           (Flaky.start 0) (conn (Flaky.start 0)) Flaky.dropped).
  - vm_compute. reflexivity.
  - apply for_host. reflexivity.
  - reflexivity.
Defined.

(** X18: after the connection, only errors of the IMAP client are turned
    into [EmailLoginError], and a failure of the [select] is turned into
    one like a failure of the login.  An exception of another class out of
    the login or the select reaches the caller as it is. *)
Theorem imap_login_wraps_imap_errors_only
    {St : Type} `{Collaborator St} (mapping : gmap string string)
    (email password domain : string) (imap : session)
    (w : World St) (s1 : St) :
  _get_imap_domain email mapping = Ret domain ->
  session_for domain imap ->
  connect imap (conn w) = (Ret tt, s1) ->
  (forall (e : exn) (s2 : St),
      login email password s1 = (Raise e, s2) ->
      is_IMAP4_error (exn_class e) = false ->
      imap_login mapping email password w
      = (Raise e,
         {| conn := s2;
            calls := calls w ++ [CallConnect imap;
                                 CallLogin email password] |})) /\
  (forall (e : exn) (s2 s3 : St),
      login email password s1 = (Ret tt, s2) ->
      select "INBOX" true s2 = (Raise e, s3) ->
      imap_login mapping email password w
      = (Raise (if is_IMAP4_error (exn_class e)
                then ExcFrom EmailLoginError "Email login error" e
                else e),
         {| conn := s3;
            calls := calls w ++ [CallConnect imap;
                                 CallLogin email password;
                                 CallSelect "INBOX" true] |})).
Proof.
  intros Hdomain Hsession Hconnect.
  rewrite (imap_login_connected _ _ _ _ _ _ _ Hdomain Hsession Hconnect).
  cbv zeta. unfold bind, imap_login_cmd, imap_select, invoke. cbn [conn calls].
  split.
  - intros e s2 Hlogin Herr. rewrite Hlogin, Herr. now rewrite <- app_assoc.
  - intros e s2 s3 Hlogin Hselect. rewrite Hlogin. cbn [conn calls].
    rewrite Hselect, <- !app_assoc.
    now destruct (is_IMAP4_error (exn_class e)).
Qed.

Lemma imap_login_wraps_imap_errors_only_witness :
  imap_login IMAP_MAPPING "user@icloud.com" "secret" (Flaky.start 2)
  = (Raise (ExcFrom EmailLoginError "Email login error" Flaky.dropped),
     {| conn := {| Flaky.budget := 0; Flaky.now := 0 |};
        calls := [] ++ [CallConnect (IMAP4_SSL "imap.mail.me.com");
                        CallLogin "user@icloud.com" "secret";
                        CallSelect "INBOX" true] |}).
Proof.
  assert (Hdomain : _get_imap_domain "user@icloud.com" IMAP_MAPPING
                    = Ret "imap.mail.me.com") by (vm_compute; reflexivity).
  assert (Hsession : session_for "imap.mail.me.com"
                       (IMAP4_SSL "imap.mail.me.com"))
    by (apply for_host; reflexivity).
  exact (proj2 (imap_login_wraps_imap_errors_only IMAP_MAPPING
                  "user@icloud.com" "secret" "imap.mail.me.com"
                  (IMAP4_SSL "imap.mail.me.com") (Flaky.start 2)
                  {| Flaky.budget := 1; Flaky.now := 0 |}
                  Hdomain Hsession eq_refl)
           Flaky.dropped
           {| Flaky.budget := 0; Flaky.now := 0 |}
           {| Flaky.budget := 0; Flaky.now := 0 |} eq_refl eq_refl).
Defined.

(** X19: whatever comes of it, [imap_login] makes at most one connection,
    then at most one login, then at most one read-only selection of the
    inbox, in that order and nothing else: it never tries again and it
    never closes the connection, not even when it fails. *)
Theorem imap_login_calls
    {St : Type} `{Collaborator St} (mapping : gmap string string)
    (email password : string) (w w' : World St) (out : outcome session) :
  imap_login mapping email password w = (out, w') ->
  exists (imap : session) (new : list call),
    calls w' = calls w ++ new /\
    new `prefix_of` [CallConnect imap; CallLogin email password;
                     CallSelect "INBOX" true] /\
    closes (calls w') = closes (calls w).
Proof.
  unfold imap_login. unfold bind at 1, lift.
  destruct (_get_imap_domain email mapping) as [domain|e].
  2:{ intros [= _ <-]. exists (IMAP4_SSL ""), [].
      rewrite app_nil_r. repeat split. apply prefix_nil. }
  assert (Hafter : forall (imap : session) (w1 : World St),
             calls w1 = calls w ++ [CallConnect imap] ->
             (let '(r, w2) :=
                bind (imap_login_cmd email password)
                     (fun _ => imap_select "INBOX" true) w1 in
              exists new,
                calls w2 = calls w ++ new /\
                new `prefix_of` [CallConnect imap; CallLogin email password;
                                 CallSelect "INBOX" true] /\
                closes (calls w2) = closes (calls w))).
  { intros imap w1 Hw1. unfold bind, imap_login_cmd, imap_select, invoke.
    destruct (login email password (conn w1)) as [[[]|e] s2];
      cbn [conn calls].
    - destruct (select "INBOX" true s2) as [[r|e] s3];
        (exists [CallConnect imap; CallLogin email password;
                 CallSelect "INBOX" true];
         cbn [calls]; rewrite Hw1, <- !app_assoc;
         split; [reflexivity|]; split; [reflexivity|];
         rewrite closes_app; cbn; lia).
    - exists [CallConnect imap; CallLogin email password].
      cbn [calls]. rewrite Hw1, <- app_assoc.
      split; [reflexivity|]. split; [now exists [CallSelect "INBOX" true]|].
      rewrite closes_app. cbn. lia. }
  assert (Hconn : forall (imap : session) (w1 : World St)
                         (r : outcome unit),
             imap_connect imap w = (r, w1) ->
             calls w1 = calls w ++ [CallConnect imap]).
  { intros imap w1 r Hc. now apply invoke_calls in Hc. }
  destruct (contains ":" domain).
  - unfold bind at 1. unfold bind at 1, lift.
    destruct (unpack2 (split ":" domain)) as [[host port]|e].
    2:{ intros [= _ <-]. exists (IMAP4_SSL ""), [].
        rewrite app_nil_r. repeat split. apply prefix_nil. }
    unfold bind at 1.
    destruct (imap_connect (IMAP4 host port) w) as [[[]|e] w1] eqn:Hc;
      apply Hconn in Hc.
    + unfold ret. specialize (Hafter (IMAP4 host port) w1 Hc).
      destruct (bind (imap_login_cmd email password)
                     (fun _ => imap_select "INBOX" true) w1) as [[r|e] w2];
        [intros [= _ <-] | destruct (is_IMAP4_error (exn_class e));
                           intros [= _ <-]];
        exists (IMAP4 host port); exact Hafter.
    + intros [= _ <-]. exists (IMAP4 host port), [CallConnect (IMAP4 host port)].
      split; [exact Hc|]. split; [now eexists|].
      rewrite Hc, closes_app. cbn. lia.
  - unfold bind at 1. unfold bind at 1.
    destruct (imap_connect (IMAP4_SSL domain) w) as [[[]|e] w1] eqn:Hc;
      apply Hconn in Hc.
    + unfold ret. specialize (Hafter (IMAP4_SSL domain) w1 Hc).
      destruct (bind (imap_login_cmd email password)
                     (fun _ => imap_select "INBOX" true) w1) as [[r|e] w2];
        [intros [= _ <-] | destruct (is_IMAP4_error (exn_class e));
                           intros [= _ <-]];
        exists (IMAP4_SSL domain); exact Hafter.
    + intros [= _ <-]. exists (IMAP4_SSL domain), [CallConnect (IMAP4_SSL domain)].
      split; [exact Hc|]. split; [now eexists|].
      rewrite Hc, closes_app. cbn. lia.
Qed.

Lemma imap_login_calls_witness :
  exists (imap : session) (new : list call),
    [CallConnect (IMAP4_SSL "imap.mail.yahoo.com");
     CallLogin "user@yahoo.com" "wrong"] = [] ++ new /\
    new `prefix_of` [CallConnect imap; CallLogin "user@yahoo.com" "wrong";
                     CallSelect "INBOX" true] /\
    closes [CallConnect (IMAP4_SSL "imap.mail.yahoo.com");
            CallLogin "user@yahoo.com" "wrong"] = closes [].
Proof.
  assert (Hrun : imap_login IMAP_MAPPING "user@yahoo.com" "wrong"
                   (Demo.start [] [])
                 = (Raise (ExcFrom EmailLoginError "Email login error"
                             (Exc IMAP4_error
                                "[AUTHENTICATIONFAILED] Invalid credentials")),
                    {| conn := conn (Demo.start [] []);
                       calls := [CallConnect (IMAP4_SSL "imap.mail.yahoo.com");
                                 CallLogin "user@yahoo.com" "wrong"] |}))
    by (vm_compute; reflexivity).
  exact (imap_login_calls IMAP_MAPPING "user@yahoo.com" "wrong"
           (Demo.start [] []) _ _ Hrun).
Defined.
